(** * Signaturit downloader: a shallow embedding of [download_signaturit.py]

    The script lists the completed signature requests of one year, fetches
    each request's detail, downloads every signed PDF and appends one row
    per document to a CSV ledger.  This file embeds its functions as Rocq
    definitions and proves the properties its specification states,
    followed by further properties read off the code.

    Conventions of the embedding.
    - A Python [str] is a Rocq [string]; an [ascii] stands for a code point
      below 256 (Latin-1), so [py_isspace] lists the white space of that
      range.  Code points above U+00FF are outside the model.
    - A Python [int] is a [Z]; JSON numbers are integers (floats do not
      occur in the identifiers and names the script reads).
    - State is passed explicitly: the remote API is a transition function
      on an abstract server state, the year's folder is a finite map from
      entry names to nodes, and [time.sleep] appends to a trace.
    - [print] calls are left out: they read and change nothing modelled. *)

From Stdlib Require Import ZArith QArith Ascii String List Lia Bool.
From stdpp Require Import gmap strings pretty list.

Local Open Scope Z_scope.

(** ** Characters and strings *)

(** [str.isspace] and the regular expression class [\s] on [str] patterns
    agree (both test [Py_UNICODE_ISSPACE]).  Below 256 the white space
    code points are 9-13, 28-32, 133 and 160. *)
Definition py_isspace (c : ascii) : bool :=
  let n := Z.of_nat (nat_of_ascii c) in
  ((9 <=? n) && (n <=? 13)) || ((28 <=? n) && (n <=? 32))
  || (n =? 133) || (n =? 160).

(** The characters of a string, first to last. *)
Fixpoint chars (s : string) : list ascii :=
  match s with
  | EmptyString => []
  | String c s' => c :: chars s'
  end.

Fixpoint str_map (f : ascii → ascii) (s : string) : string :=
  match s with
  | EmptyString => EmptyString
  | String c s' => String (f c) (str_map f s')
  end.

(** [str.lstrip()], [str.rstrip()] and [str.strip()] with no argument. *)
Fixpoint lstrip (s : string) : string :=
  match s with
  | EmptyString => EmptyString
  | String c s' => if py_isspace c then lstrip s' else s
  end.

Fixpoint rstrip (s : string) : string :=
  match s with
  | EmptyString => EmptyString
  | String c s' =>
      match rstrip s' with
      | EmptyString => if py_isspace c then EmptyString else String c EmptyString
      | r => String c r
      end
  end.

Definition strip (s : string) : string := rstrip (lstrip s).

(** [sep.join(parts)]. *)
Fixpoint join (sep : string) (parts : list string) : string :=
  match parts with
  | [] => ""
  | [p] => p
  | p :: ps => p +:+ sep +:+ join sep ps
  end.

(** Python truthiness of a [str]: the empty string is false. *)
Definition str_truthy (s : string) : bool :=
  match s with EmptyString => false | _ => true end.

(** ** [sanitize_filename] *)

(** The character class of the first [re.sub]: backslash, slash, colon,
    star, question mark, double quote (code 34), less-than, greater-than
    and vertical bar. *)
Definition forbidden_char (c : ascii) : bool :=
  existsb (Ascii.eqb c)
    ["\"; "/"; ":"; "*"; "?"; "034"; "<"; ">"; "|"]%char.

(** The first [re.sub] replaces each character of that class by an
    underscore: the class matches one character at a time, so the
    substitution is a character map. *)
Definition replace_forbidden (name : string) : string :=
  str_map (λ c, if forbidden_char c then "_"%char else c) name.

(** [re.sub(r"\s+", " ", name)]: every maximal run of white space becomes
    one space.  [in_run] tells that the previous character was white
    space, whose run has already produced its space. *)
Fixpoint collapse_ws_from (in_run : bool) (name : string) : string :=
  match name with
  | EmptyString => EmptyString
  | String c s' =>
      if py_isspace c then
        if in_run then collapse_ws_from true s'
        else String " " (collapse_ws_from true s')
      else String c (collapse_ws_from false s')
  end.

Definition collapse_ws (name : string) : string := collapse_ws_from false name.

Definition DEFAULT_NAME : string := "document.pdf".

(** <<
    def sanitize_filename(name: str) -> str:
        name = re.sub(FORBIDDEN_CLASS, "_", name)
        name = re.sub(r"\s+", " ", name).strip()
        return name or "document.pdf"
    >> *)
Definition sanitize_filename (name : string) : string :=
  let name := replace_forbidden name in
  let name := strip (collapse_ws name) in
  if str_truthy name then name else DEFAULT_NAME.

(** ** [os.path.splitext] (the POSIX flavour, [genericpath._splitext])

    <<
    sepIndex = p.rfind(sep)
    dotIndex = p.rfind(extsep)
    if dotIndex > sepIndex:
        filenameIndex = sepIndex + 1
        while filenameIndex < dotIndex:
            if p[filenameIndex:filenameIndex+1] != extsep:
                return p[:dotIndex], p[dotIndex:]
            filenameIndex += 1
    return p, p[:0]
    >>
    The names the script passes contain neither slash nor backslash (they went
    through [sanitize_filename]), so the Windows flavour agrees on them. *)

(** [s.rfind(c)] for a one-character needle: the last index, or -1. *)
Fixpoint rfind (c : ascii) (s : string) : Z :=
  match s with
  | EmptyString => -1
  | String a s' =>
      let r := rfind c s' in
      if 0 <=? r then r + 1
      else if Ascii.eqb a c then 0 else -1
  end.

(** [s[:n]] and [s[n:]] for [0 <= n]. *)
Fixpoint str_take (n : nat) (s : string) : string :=
  match n, s with
  | S n', String c s' => String c (str_take n' s')
  | _, _ => EmptyString
  end.

Fixpoint str_drop (n : nat) (s : string) : string :=
  match n, s with
  | S n', String _ s' => str_drop n' s'
  | _, _ => s
  end.

(** Some character of [s[lo:hi]] differs from [c]: the [while] loop of
    [_splitext] returns at the first such index. *)
Definition has_other_between (c : ascii) (lo hi : Z) (s : string) : bool :=
  existsb (λ a, negb (Ascii.eqb a c))
    (chars (str_take (Z.to_nat (hi - lo)) (str_drop (Z.to_nat lo) s))).

Definition splitext (p : string) : string * string :=
  let sepIndex := rfind "/" p in
  let dotIndex := rfind "." p in
  if (sepIndex <? dotIndex) && has_other_between "." (sepIndex + 1) dotIndex p
  then (str_take (Z.to_nat dotIndex) p, str_drop (Z.to_nat dotIndex) p)
  else (p, "").

(** ** Dates *)

Record date := { d_year : Z; d_month : Z; d_day : Z }.

(** [str(n)] of an [int]. *)
Definition str_of_int (n : Z) : string := pretty n.

(** Zero padding of a non-negative number to [width] digits, as the
    formats [%04d] and [%02d] of [date.isoformat] do. *)
Definition zero_pad (width : nat) (n : Z) : string :=
  let s := str_of_int n in
  String.concat "" (replicate (width - String.length s) "0") +:+ s.

(** [date.isoformat()]: [YYYY-MM-DD]. *)
Definition isoformat (d : date) : string :=
  zero_pad 4 (d_year d) +:+ "-" +:+ zero_pad 2 (d_month d) +:+ "-"
  +:+ zero_pad 2 (d_day d).

(** <<
    def today_iso() -> str:
        return dt.date.today().isoformat()
    >>
    [dt.date.today()] reads the clock: the date is an argument here. *)
Definition today_iso (today : date) : string := isoformat today.

(** <<
    def build_date_range_for_year(year: int) -> tuple[str, str]:
        since = f"{year}-01-01"
        current_year = dt.date.today().year
        until = today_iso() if year == current_year else f"{year}-12-31"
        return since, until
    >> *)
Definition build_date_range_for_year (today : date) (year : Z)
  : string * string :=
  let since := str_of_int year +:+ "-01-01" in
  let current_year := d_year today in
  let until :=
    if year =? current_year then today_iso today
    else str_of_int year +:+ "-12-31" in
  (since, until).

(** ** JSON values as Python objects

    [json.loads] turns a response body into nested [dict], [list], [str],
    [int], [bool] and [None]; a [dict] keeps its keys in insertion order,
    so it is an association list here ([dict_get] reads the first binding
    of a key; a [dict] holds each key once). *)
#[warnings="-register-all"]
Inductive json : Type :=
| JNull
| JBool (b : bool)
| JNum (n : Z)
| JStr (s : string)
| JArr (items : list json)
| JObj (fields : list (string * json)).

Fixpoint assoc (key : string) (fields : list (string * json)) : option json :=
  match fields with
  | [] => None
  | (k, v) :: rest => if String.eqb k key then Some v else assoc key rest
  end.

(** [d.get(key, dflt)] and [d.get(key)] (whose default is [None]). *)
Definition dict_get_or (d : list (string * json)) (key : string) (dflt : json)
  : json := default dflt (assoc key d).

Definition dict_get (d : list (string * json)) (key : string) : json :=
  dict_get_or d key JNull.

(** Truthiness, as [not x], [x or y] and [if x] test it. *)
Definition py_truthy (j : json) : bool :=
  match j with
  | JNull => false
  | JBool b => b
  | JNum n => negb (n =? 0)
  | JStr s => str_truthy s
  | JArr items => match items with [] => false | _ => true end
  | JObj fields => match fields with [] => false | _ => true end
  end.

(** [x or y]. *)
Definition py_or (x y : json) : json := if py_truthy x then x else y.

(** The name [type(x).__name__] that error messages quote. *)
Definition py_type_name (j : json) : string :=
  match j with
  | JNull => "NoneType"
  | JBool _ => "bool"
  | JNum _ => "int"
  | JStr _ => "str"
  | JArr _ => "list"
  | JObj _ => "dict"
  end.

(** What [for x in j] and [list.extend(j)] iterate over: the items of a
    list, the keys of a dict, the characters of a string; the other
    values are not iterable ([TypeError]). *)
Definition py_iter (j : json) : option (list json) :=
  match j with
  | JArr items => Some items
  | JObj fields => Some (map (λ kv, JStr (fst kv)) fields)
  | JStr s => Some (map (λ c, JStr (String c "")) (chars s))
  | _ => None
  end.

(** *** [repr] and [str]

    [str(x)] of a string is the string; of anything else it is [repr(x)].
    [repr] of a string picks the quote (double quotes only when the string
    has a single quote and no double quote) and escapes the quote, the
    backslash, tab, newline, carriage return and the code points that are
    not printable (below 32, 127 to 160, and 173). *)
Definition hex_digit (n : nat) : ascii :=
  nth n (chars "0123456789abcdef") "0"%char.

Definition py_isprintable (c : ascii) : bool :=
  let n := Z.of_nat (nat_of_ascii c) in
  ((32 <=? n) && (n <? 127)) || ((161 <=? n) && negb (n =? 173)).

Definition repr_char (quote c : ascii) : string :=
  if Ascii.eqb c quote || Ascii.eqb c "\" then String "\" (String c "")
  else if Ascii.eqb c "009" then "\t"
  else if Ascii.eqb c "010" then "\n"
  else if Ascii.eqb c "013" then "\r"
  else if py_isprintable c then String c ""
  else
    let n := nat_of_ascii c in
    String "\" (String "x" (String (hex_digit (n / 16))
                              (String (hex_digit (n mod 16)) ""))).

Definition str_has (c : ascii) (s : string) : bool :=
  existsb (Ascii.eqb c) (chars s).

Definition py_repr_str (s : string) : string :=
  let quote : ascii :=
    if str_has "'" s && negb (str_has "034" s) then "034"%char else "'"%char in
  String quote (String.concat "" (map (repr_char quote) (chars s)))
  +:+ String quote "".

Fixpoint py_repr (j : json) : string :=
  match j with
  | JNull => "None"
  | JBool true => "True"
  | JBool false => "False"
  | JNum n => str_of_int n
  | JStr s => py_repr_str s
  | JArr items => "[" +:+ join ", " (map py_repr items) +:+ "]"
  | JObj fields =>
      "{" +:+ join ", "
                (map (λ kv, py_repr_str (fst kv) +:+ ": " +:+ py_repr (snd kv))
                     fields)
      +:+ "}"
  end.

(** [str(x)], which is what an f-string field [{x}] inserts. *)
Definition py_str (j : json) : string :=
  match j with
  | JStr s => s
  | _ => py_repr j
  end.

(** ** The regular expressions of the script

    Both patterns are sequences of literal characters and greedy
    one-or-more repetitions of a character class, optionally closed by
    [$].  [match_here] is the backtracking matcher of [re] on such
    sequences: a repetition first tries to take one more character and
    gives characters back only when the rest of the pattern fails.  It
    returns the length of the match found at the start of the string. *)
Inductive atom : Type :=
| Lit (c : ascii)
| Plus (cls : ascii → bool)
| Eos.

Fixpoint match_here (pat : list atom) (s : string) : option nat :=
  match pat with
  | [] => Some 0%nat
  | Lit c :: pat' =>
      match s with
      | String a s' => if Ascii.eqb a c then S <$> match_here pat' s' else None
      | EmptyString => None
      end
  | Eos :: pat' =>
      (* [$] holds at the end and just before a newline that ends the string *)
      match s with
      | EmptyString => match_here pat' s
      | String "010" EmptyString => match_here pat' s
      | _ => None
      end
  | Plus cls :: pat' =>
      (fix more (s : string) : option nat :=
         match s with
         | String a s' =>
             if cls a then
               match more s' with
               | Some n => Some (S n)
               | None => S <$> match_here pat' s'
               end
             else None
         | EmptyString => None
         end) s
  end.

(** [re.match(pat, s)] is not [None]. *)
Definition re_match (pat : list atom) (s : string) : bool :=
  bool_decide (is_Some (match_here pat s)).

(** [re.findall(pat, s)]: the matches found scanning left to right, each
    search starting where the previous match ended.  [skip] counts the
    characters of the previous match still to step over. *)
Fixpoint findall_from (skip : nat) (pat : list atom) (s : string)
  : list string :=
  match s with
  | EmptyString =>
      match match_here pat s with Some _ => [""] | None => [] end
  | String _ s' =>
      match skip with
      | S k => findall_from k pat s'
      | O =>
          match match_here pat s with
          | Some (S n) => str_take (S n) s :: findall_from n pat s'
          | Some O => "" :: findall_from 0 pat s'
          | None => findall_from 0 pat s'
          end
      end
  end.

Definition findall (pat : list atom) (s : string) : list string :=
  findall_from 0 pat s.

(** The class [[^@\s]]. *)
Definition email_char (c : ascii) : bool :=
  negb (Ascii.eqb c "@" || py_isspace c).

(** [[^@\s]+@[^@\s]+\.[^@\s]+], the pattern of the deep search. *)
Definition EMAIL_PATTERN : list atom :=
  [Plus email_char; Lit "@"; Plus email_char; Lit "."; Plus email_char].

(** [^[^@\s]+@[^@\s]+\.[^@\s]+$], the pattern of [add_email]; [re.match]
    anchors at the start, so [^] adds nothing.  [re.IGNORECASE] changes
    neither pattern: they name no cased character. *)
Definition EMAIL_ANCHORED : list atom := EMAIL_PATTERN ++ [Eos].

(** ** [extract_emails]

    The closures [add_email], [harvest_from] and [walk] append to the
    list [emails] of the enclosing call: here each takes the list and
    returns the new one. *)

(** <<
    def add_email(e):
        if isinstance(e, str):
            e2 = e.strip()
            if re.match(ANCHORED, e2, flags=re.IGNORECASE):
                if e2 not in emails:
                    emails.append(e2)
    >> *)
Definition add_email (e : json) (emails : list string) : list string :=
  match e with
  | JStr s =>
      let e2 := strip s in
      if re_match EMAIL_ANCHORED e2 then
        if bool_decide (e2 ∈ emails) then emails else emails ++ [e2]
      else emails
  | _ => emails
  end.

(** The body of the inner loop of [harvest_from], for one item:
    <<
    if isinstance(it, dict):
        add_email(it.get("email"))
        user = it.get("user")
        if isinstance(user, dict):
            add_email(user.get("email"))
    >> *)
Definition harvest_item (it : json) (emails : list string) : list string :=
  match it with
  | JObj d =>
      let emails := add_email (dict_get d "email") emails in
      match dict_get d "user" with
      | JObj user => add_email (dict_get user "email") emails
      | _ => emails
      end
  | _ => emails
  end.

(** <<
    def harvest_from(container):
        for key in ("signers", "recipients", "participants"):
            items = container.get(key)
            if isinstance(items, list):
                for it in items: ...
    >> *)
Definition HARVEST_KEYS : list string :=
  ["signers"; "recipients"; "participants"].

Definition harvest_key (container : list (string * json)) (emails : list string)
    (key : string) : list string :=
  match dict_get container key with
  | JArr items => fold_left (λ acc it, harvest_item it acc) items emails
  | _ => emails
  end.

Definition harvest_from (container : list (string * json))
    (emails : list string) : list string :=
  fold_left (harvest_key container) HARVEST_KEYS emails.

(** <<
    def walk(o):
        if isinstance(o, dict):
            for v in o.values(): walk(v)
        elif isinstance(o, list):
            for v in o: walk(v)
        elif isinstance(o, str):
            for m in re.findall(PATTERN, o, flags=re.IGNORECASE):
                add_email(m)
    >> *)
Fixpoint walk (o : json) (emails : list string) : list string :=
  match o with
  | JObj fields =>
      fold_left (λ acc kv, let '(_, v) := kv in walk v acc) fields emails
  | JArr items => fold_left (λ acc v, walk v acc) items emails
  | JStr s =>
      fold_left (λ acc m, add_email (JStr m) acc) (findall EMAIL_PATTERN s)
        emails
  | _ => emails
  end.

Definition is_dict (j : json) : bool :=
  match j with JObj _ => true | _ => false end.

(** <<
    def extract_emails(sig_summary, sig_detail=None):
        emails = []
        if isinstance(sig_detail, dict):
            harvest_from(sig_detail)
        if not emails and isinstance(sig_summary, dict):
            harvest_from(sig_summary)
        if emails:
            return emails
        if isinstance(sig_detail, dict):
            walk(sig_detail)
        if not emails and isinstance(sig_summary, dict):
            walk(sig_summary)
        return emails
    >>
    [None] is [JNull], so an absent detail is a [json] like any other. *)
Definition extract_emails (sig_summary sig_detail : json) : list string :=
  let emails : list string := [] in
  let emails :=
    match sig_detail with
    | JObj d => harvest_from d emails
    | _ => emails
    end in
  let emails :=
    match emails, sig_summary with
    | [], JObj d => harvest_from d emails
    | _, _ => emails
    end in
  match emails with
  | _ :: _ => emails
  | [] =>
      let emails :=
        if is_dict sig_detail then walk sig_detail emails else emails in
      let emails :=
        match emails with
        | [] => if is_dict sig_summary then walk sig_summary emails else emails
        | _ => emails
        end in
      emails
  end.

(** ** The world the script runs in *)

(** *** User settings *)
Definition YEAR : Z := 2024.
Definition OUTPUT_ROOT : string := "signaturit_downloads".
Definition PLACEHOLDER : string := "PASTE_YOUR_TOKEN_HERE".
Definition PAGE_LIMIT : Z := 100.
Definition MAX_RETRIES : Z := 5.
Definition INITIAL_BACKOFF_SECONDS : Q := 3 # 2.
Definition BASE_URL : string := "https://api.signaturit.com/v3".

(** [TOKEN = os.getenv("SIGNATURIT_API_TOKEN") or "PASTE_YOUR_TOKEN_HERE"];
    the environment variable is an argument. *)
Definition TOKEN (env_token : option string) : string :=
  match env_token with
  | Some t => if str_truthy t then t else PLACEHOLDER
  | None => PLACEHOLDER
  end.

(** *** HTTP *)

(** What [requests.get] is called with. *)
Record Request := {
  url : string;
  headers : list (string * string);
  params : option (list (string * json));
  stream : bool;
  timeout : Z;
}.

(** A [requests.Response]: [text], [content] and [json()] are three
    readings of one body; [json_body = None] is a body that is no JSON,
    on which [json()] raises. *)
Record Response := {
  status_code : Z;
  text : string;
  content : string;
  json_body : option json;
}.

(** [requests.get] returns a response or raises (no route, time out). *)
Inductive Outcome : Type :=
| Answered (resp : Response)
| Unreachable (msg : string).

(** *** Exceptions: the class name and [str(e)]. *)
Record exn := { exn_class : string; exn_msg : string }.

Definition RuntimeError (msg : string) : exn :=
  {| exn_class := "RuntimeError"; exn_msg := msg |}.
Definition RequestException (msg : string) : exn :=
  {| exn_class := "RequestException"; exn_msg := msg |}.
Definition JSONDecodeError : exn :=
  {| exn_class := "JSONDecodeError"; exn_msg := "Expecting value" |}.
Definition AttributeError (j : json) (attr : string) : exn :=
  {| exn_class := "AttributeError";
     exn_msg := "'" +:+ py_type_name j +:+ "' object has no attribute '"
                +:+ attr +:+ "'" |}.
Definition TypeError (msg : string) : exn :=
  {| exn_class := "TypeError"; exn_msg := msg |}.
Definition NotIterable (j : json) : exn :=
  TypeError ("'" +:+ py_type_name j +:+ "' object is not iterable").
Definition FileExistsError (path : string) : exn :=
  {| exn_class := "FileExistsError"; exn_msg := path |}.
Definition IsADirectoryError (path : string) : exn :=
  {| exn_class := "IsADirectoryError"; exn_msg := path |}.
Definition UnboundLocalError (name : string) : exn :=
  {| exn_class := "UnboundLocalError"; exn_msg := name |}.
Definition SystemExit (msg : string) : exn :=
  {| exn_class := "SystemExit"; exn_msg := msg |}.

(** *** Files

    A file is the sequence of what was written to it: raw bytes, a row
    handed to [csv.writer.writerow], or a value handed to [json.dumps].
    The year's folder maps entry names to files and to folders of files
    (one level is all the script creates). *)
Inductive chunk : Type :=
| Bytes (b : string)
| CsvRow (row : list json)
| JsonText (j : json).

Inductive node : Type :=
| File (data : list chunk)
| Dir (entries : gmap string (list chunk)).

Definition LOG_NAME : string := "download_log.csv".
Definition DEBUG_DIR : string := "_no_email_samples".

(** [str(year_folder / name)], with the POSIX separator. *)
Definition YEAR_FOLDER : string := OUTPUT_ROOT +:+ "/" +:+ str_of_int YEAR.
Definition path_in_year_folder (name : string) : string :=
  YEAR_FOLDER +:+ "/" +:+ name.

(** [(year_folder / name).exists()]. *)
Definition path_exists (folder : gmap string node) (name : string) : bool :=
  bool_decide (is_Some (folder !! name)).

(** ** [make_unique_filename]

    <<
    def make_unique_filename(base_path: Path, filename: str) -> Path:
        stem, ext = os.path.splitext(filename)
        candidate = base_path / filename
        counter = 2
        while candidate.exists():
            candidate = base_path / f"{stem}_{counter}{ext}"
            counter += 1
        return candidate
    >>
    [folder] holds the entries of [base_path]; the result is the entry
    name of the returned path.  The [while] loop is run on fuel: two more
    tests than the folder has entries, which [make_unique_filename_total]
    shows to be enough for every folder and name. *)
Definition numbered (stem ext : string) (counter : nat) : string :=
  stem +:+ "_" +:+ pretty counter +:+ ext.

Fixpoint unique_loop (fuel : nat) (folder : gmap string node)
    (stem ext candidate : string) (counter : nat) : option string :=
  match fuel with
  | O => None
  | S fuel' =>
      if path_exists folder candidate then
        unique_loop fuel' folder stem ext (numbered stem ext counter)
          (S counter)
      else Some candidate
  end.

Definition make_unique_filename (folder : gmap string node) (filename : string)
  : option string :=
  let '(stem, ext) := splitext filename in
  unique_loop (S (S (size folder))) folder stem ext filename 2.

(** ** The name a document is saved under

    The lines of [main] between reading the document and calling
    [make_unique_filename]:
    <<
    if email_used:
        base_name = f"{email_used}_{original_name}"
    else:
        base_name = original_name
    safe_name = sanitize_filename(base_name)
    if not os.path.splitext(safe_name)[1]:
        safe_name += ".pdf"
    >>
    [original_name] is whatever the JSON holds; [sanitize_filename] raises
    a [TypeError] on anything but a string. *)
Definition email_used_of (emails : list string) : string :=
  match emails with
  | [] => ""
  | _ => join "+" emails
  end.

Definition base_name_of (email_used : string) (original_name : json) : json :=
  if str_truthy email_used
  then JStr (email_used +:+ "_" +:+ py_str original_name)
  else original_name.

Definition ensure_extension (safe_name : string) : string :=
  if str_truthy (snd (splitext safe_name)) then safe_name
  else safe_name +:+ ".pdf".

Definition safe_name_of (email_used : string) (original_name : json)
  : option string :=
  match base_name_of email_used original_name with
  | JStr base_name => Some (ensure_extension (sanitize_filename base_name))
  | _ => None
  end.

(** What [range(lo, hi)] runs through. *)
Definition py_range (lo hi : Z) : list Z :=
  map (λ i, lo + Z.of_nat i) (seq 0 (Z.to_nat (hi - lo))).

(** The statuses [api_get] retries on. *)
Definition RETRY_STATUSES : list Z := [429; 500; 502; 503; 504].
Definition retry_status (code : Z) : bool :=
  existsb (Z.eqb code) RETRY_STATUSES.

(** The counters [main] prints at the end. *)
Record Summary := { downloaded : Z; skipped : Z; failures : Z }.

Definition HEADER_ROW : list json :=
  map JStr ["signature_id"; "document_id"; "email_used"; "original_filename";
            "saved_path"; "created_at"; "status"; "error"].

(** The list handed to [writer.writerow] for one document. *)
Definition log_row (sig_id doc_id : json) (email_used : string)
    (original_name : json) (saved_path : string) (created_at : json)
    (status error : string) : list json :=
  [sig_id; doc_id; JStr email_used; original_name; JStr saved_path;
   created_at; JStr status; JStr error].

(** Does [needle in s] hold, for strings. *)
Fixpoint str_contains (needle s : string) : bool :=
  String.prefix needle s
  || match s with
     | EmptyString => false
     | String _ s' => str_contains needle s'
     end.

(** Appending one row to the ledger file of a folder. *)
Definition append_row (row : list json) (f : gmap string node)
  : gmap string node :=
  match f !! LOG_NAME with
  | Some (File data) => <[LOG_NAME := File (data ++ [CsvRow row])]> f
  | _ => <[LOG_NAME := File [CsvRow row]]> f
  end.

(** ** The effectful functions

    A computation takes the world and returns a result and the new world.
    [Raise] is a Python exception in flight; [OutOfFuel] is the model
    running out of loop iterations, never a behaviour of the script. *)
Inductive result (A : Type) : Type :=
| Ok (a : A)
| Raise (e : exn)
| OutOfFuel.
Arguments Ok {A} a.
Arguments Raise {A} e.
Arguments OutOfFuel {A}.

Inductive Event : Type :=
| Got (req : Request) (o : Outcome)
| Slept (seconds : Q).

Section Program.
Context {Srv : Type}.
(** The remote API: it answers a request and moves to its next state. *)
Variable serve : Srv → Request → Outcome * Srv.

Record World := {
  server : Srv;
  trace : list Event;
  folder : gmap string node;
}.

Definition M (A : Type) : Type := World → result A * World.

Definition ret {A} (a : A) : M A := λ w, (Ok a, w).
Definition raise {A} (e : exn) : M A := λ w, (Raise e, w).
Definition out_of_fuel {A} : M A := λ w, (OutOfFuel, w).

Definition bind {A B} (m : M A) (k : A → M B) : M B := λ w,
  match m w with
  | (Ok a, w') => k a w'
  | (Raise e, w') => (Raise e, w')
  | (OutOfFuel, w') => (OutOfFuel, w')
  end.

(** [try: m except Exception as e: handler(e)]. *)
Definition try_except {A} (m : M A) (handler : exn → M A) : M A := λ w,
  match m w with
  | (Raise e, w') => handler e w'
  | r => r
  end.

Local Notation "'do' x <- m ; k" := (bind m (λ x, k))
  (at level 10, x name, m at level 100, k at level 200).
Local Notation "m ;; k" := (bind m (λ _, k))
  (at level 100, k at level 200, right associativity).

Definition log_event (e : Event) : M unit := λ w,
  (Ok tt, {| server := server w; trace := trace w ++ [e];
             folder := folder w |}).

Definition set_folder (f : gmap string node → gmap string node) : M unit :=
  λ w, (Ok tt, {| server := server w; trace := trace w;
                  folder := f (folder w) |}).

Definition get_folder : M (gmap string node) := λ w, (Ok (folder w), w).

(** [requests.get(url, headers=..., params=..., stream=..., timeout=60)]. *)
Definition requests_get (req : Request) : M Response := λ w,
  let '(o, srv') := serve (server w) req in
  let w' := {| server := srv'; trace := trace w ++ [Got req o];
               folder := folder w |} in
  match o with
  | Answered resp => (Ok resp, w')
  | Unreachable msg => (Raise (RequestException msg), w')
  end.

(** [time.sleep(seconds)]. *)
Definition sleep (seconds : Q) : M unit := log_event (Slept seconds).

(** [resp.json()]. *)
Definition resp_json (resp : Response) : M json :=
  match json_body resp with
  | Some j => ret j
  | None => raise JSONDecodeError
  end.

(** <<
    def api_get(path, token, params=None, stream=False):
        url = f"{BASE_URL}{path}"
        headers = {"Authorization": f"Bearer {token}"}
        backoff = INITIAL_BACKOFF_SECONDS
        for attempt in range(1, MAX_RETRIES + 1):
            resp = requests.get(url, headers=headers, params=params,
                                stream=stream, timeout=60)
            if resp.status_code in (429, 500, 502, 503, 504):
                if attempt == MAX_RETRIES:
                    return resp
                time.sleep(backoff)
                backoff *= 2
                continue
            return resp
        return resp
    >>
    [api_get_loop] is the [for] loop over the attempts still to run;
    [last] is the variable [resp], unbound before the first attempt. *)
Fixpoint api_get_loop (attempts : list Z) (req : Request) (backoff : Q)
    (last : option Response) : M Response :=
  match attempts with
  | [] =>
      match last with
      | Some resp => ret resp
      | None => raise (UnboundLocalError "resp")
      end
  | attempt :: rest =>
      do resp <- requests_get req;
      if retry_status (status_code resp) then
        if attempt =? MAX_RETRIES then ret resp
        else
          sleep backoff ;;
          api_get_loop rest req (backoff * 2)%Q (Some resp)
      else ret resp
  end.

Definition api_request (path token : string)
    (params : option (list (string * json))) (stream : bool) : Request :=
  {| url := BASE_URL +:+ path;
     headers := [("Authorization", "Bearer " +:+ token)];
     params := params;
     stream := stream;
     timeout := 60 |}.

Definition api_get (path token : string)
    (params : option (list (string * json))) (stream : bool) : M Response :=
  api_get_loop (py_range 1 (MAX_RETRIES + 1))
    (api_request path token params stream) INITIAL_BACKOFF_SECONDS None.

(** The query of one page of the list endpoint. *)
Definition list_params (since until : string) (offset : Z)
  : list (string * json) :=
  [("status", JStr "completed"); ("since", JStr since);
   ("until", JStr until); ("limit", JNum PAGE_LIMIT); ("offset", JNum offset)].

(** <<
    def fetch_signatures_for_year(token, year):
        since, until = build_date_range_for_year(year)
        collected = []
        offset = 0
        while True:
            params = {...}
            resp = api_get("/signatures.json", token, params=params)
            if resp.status_code != 200:
                raise RuntimeError(f"Failed to list signatures: ...")
            page = resp.json()
            if not page:
                break
            collected.extend(page)
            offset += PAGE_LIMIT
            if len(page) < PAGE_LIMIT:
                break
        return collected
    >>
    [fetch_pages] is the [while True] loop, one iteration per unit of
    fuel. *)
Fixpoint fetch_pages (fuel : nat) (token since until : string) (offset : Z)
    (collected : list json) : M (list json) :=
  match fuel with
  | O => out_of_fuel
  | S fuel' =>
      do resp <- api_get "/signatures.json" token
                   (Some (list_params since until offset)) false;
      if negb (status_code resp =? 200) then
        raise (RuntimeError ("Failed to list signatures: "
                 +:+ str_of_int (status_code resp) +:+ " " +:+ text resp))
      else
        do page <- resp_json resp;
        if negb (py_truthy page) then ret collected
        else
          match py_iter page with
          | None => raise (NotIterable page)
          | Some items =>
              let collected := collected ++ items in
              let offset := offset + PAGE_LIMIT in
              if Z.of_nat (length items) <? PAGE_LIMIT then ret collected
              else fetch_pages fuel' token since until offset collected
          end
  end.

Definition fetch_signatures_for_year (fuel : nat) (today : date)
    (token : string) (year : Z) : M (list json) :=
  let '(since, until) := build_date_range_for_year today year in
  fetch_pages fuel token since until 0 [].

(** <<
    def fetch_signature_detail(token, signature_id):
        resp = api_get(f"/signatures/{signature_id}.json", token)
        if resp.status_code != 200:
            raise RuntimeError(f"Failed to fetch signature detail ...")
        return resp.json()
    >> *)
Definition fetch_signature_detail (token : string) (signature_id : json)
  : M json :=
  do resp <- api_get ("/signatures/" +:+ py_str signature_id +:+ ".json")
               token None false;
  if negb (status_code resp =? 200) then
    raise (RuntimeError ("Failed to fetch signature detail "
             +:+ py_str signature_id +:+ ": "
             +:+ str_of_int (status_code resp) +:+ " " +:+ text resp))
  else resp_json resp.

(** <<
    def download_signed_pdf(token, signature_id, document_id):
        path = f"/signatures/{signature_id}/documents/{document_id}/download/signed"
        resp = api_get(path, token, stream=True)
        if resp.status_code != 200:
            raise RuntimeError(f"Download failed ({resp.status_code}): {resp.text}")
        return resp.content
    >> *)
Definition download_signed_pdf (token : string) (signature_id document_id : json)
  : M string :=
  let path := "/signatures/" +:+ py_str signature_id +:+ "/documents/"
              +:+ py_str document_id +:+ "/download/signed" in
  do resp <- api_get path token None true;
  if negb (status_code resp =? 200) then
    raise (RuntimeError ("Download failed (" +:+ str_of_int (status_code resp)
                         +:+ "): " +:+ text resp))
  else ret (content resp).

(** [ensure_folder(year_folder)]: [folder] already stands for the entries
    of the year's folder, empty when the folder is new. *)
Definition ensure_folder : M unit := ret tt.

(** [writer.writerow(row)] on the ledger opened in append mode. *)
Definition writerow (row : list json) : M unit := set_folder (append_row row).

(** [with open(out_path, "wb") as f: f.write(pdf_bytes)]. *)
Definition write_bytes (name : string) (b : string) : M unit :=
  do f <- get_folder;
  match f !! name with
  | Some (Dir _) => raise (IsADirectoryError (path_in_year_folder name))
  | _ => set_folder (λ f, <[name := File [Bytes b]]> f)
  end.

(** [debug_dir.mkdir(parents=True, exist_ok=True)]. *)
Definition mkdir_debug_dir : M unit :=
  do f <- get_folder;
  match f !! DEBUG_DIR with
  | Some (Dir _) => ret tt
  | Some (File _) => raise (FileExistsError (path_in_year_folder DEBUG_DIR))
  | None => set_folder (λ f, <[DEBUG_DIR := Dir ∅]> f)
  end.

(** <<
    debug_file = debug_dir / f"{sig_id}.json"
    if detail and not debug_file.exists():
        debug_file.write_text(json.dumps(detail, ...), encoding="utf-8")
    >> *)
Definition dump_detail (sig_id detail : json) : M unit :=
  let debug_file := py_str sig_id +:+ ".json" in
  set_folder (λ f,
    match f !! DEBUG_DIR with
    | Some (Dir entries) =>
        if py_truthy detail && negb (bool_decide (is_Some (entries !! debug_file)))
        then <[DEBUG_DIR := Dir (<[debug_file := [JsonText detail]]> entries)]> f
        else f
    | _ => f
    end).

(** [x.get]: only a dict has the method. *)
Definition as_dict (j : json) : M (list (string * json)) :=
  match j with
  | JObj d => ret d
  | _ => raise (AttributeError j "get")
  end.

(** The body of [for doc in documents]. *)
Definition process_document (token : string) (sig_id created_at : json)
    (email_used : string) (counts : Summary) (doc : json) : M Summary :=
  do d <- as_dict doc;
  let doc_id := dict_get d "id" in
  do file_info <- as_dict (py_or (dict_get_or d "file" (JObj [])) (JObj []));
  let original_name :=
    py_or (dict_get file_info "name") (JStr (py_str doc_id +:+ ".pdf")) in
  match safe_name_of email_used original_name with
  | None => raise (TypeError "expected string or bytes-like object")
  | Some safe_name =>
      do f <- get_folder;
      match make_unique_filename f safe_name with
      | None => out_of_fuel
      | Some out_name =>
          let out_path := path_in_year_folder out_name in
          if path_exists f out_name then
            writerow (log_row sig_id doc_id email_used original_name out_path
                        created_at "skipped_exists" "") ;;
            ret {| downloaded := downloaded counts;
                   skipped := skipped counts + 1;
                   failures := failures counts |}
          else
            try_except
              (do pdf_bytes <- download_signed_pdf token sig_id doc_id;
               write_bytes out_name pdf_bytes ;;
               writerow (log_row sig_id doc_id email_used original_name
                           out_path created_at "downloaded" "") ;;
               ret {| downloaded := downloaded counts + 1;
                      skipped := skipped counts;
                      failures := failures counts |})
              (λ e,
               writerow (log_row sig_id doc_id email_used original_name
                           out_path created_at "error" (exn_msg e)) ;;
               ret {| downloaded := downloaded counts;
                      skipped := skipped counts;
                      failures := failures counts + 1 |})
      end
  end.

(** A [for] loop threading the counters. *)
Fixpoint for_each {A} (body : Summary → A → M Summary) (items : list A)
    (counts : Summary) : M Summary :=
  match items with
  | [] => ret counts
  | x :: rest => do counts <- body counts x; for_each body rest counts
  end.

(** The body of [for sig in signatures]. *)
Definition process_signature (token : string) (counts : Summary) (sig : json)
  : M Summary :=
  do s <- as_dict sig;
  let sig_id := dict_get s "id" in
  let created_at := dict_get_or s "created_at" (JStr "") in
  let documents := py_or (dict_get_or s "documents" (JArr [])) (JArr []) in
  do detail <- try_except (fetch_signature_detail token sig_id)
                 (λ _, ret JNull);
  let emails := extract_emails sig detail in
  let email_used := email_used_of emails in
  (if str_truthy email_used then ret tt
   else mkdir_debug_dir ;; dump_detail sig_id detail) ;;
  match py_iter documents with
  | None => raise (NotIterable documents)
  | Some docs =>
      for_each (process_document token sig_id created_at email_used) docs
        counts
  end.

(** The ledger is created with its header when missing, then opened for
    appending. *)
Definition open_ledger : M unit :=
  do f <- get_folder;
  (if path_exists f LOG_NAME then ret tt
   else set_folder (λ f, <[LOG_NAME := File [CsvRow HEADER_ROW]]> f)) ;;
  do f <- get_folder;
  match f !! LOG_NAME with
  | Some (Dir _) => raise (IsADirectoryError (path_in_year_folder LOG_NAME))
  | _ => ret tt
  end.

Definition NO_TOKEN_MESSAGE : string :=
  "No API token set. Either set SIGNATURIT_API_TOKEN or paste your token into the TOKEN variable (replace PASTE_YOUR_TOKEN_HERE).".

Definition process_signatures (token : string) (signatures : list json)
  : M Summary :=
  for_each (process_signature token) signatures
    {| downloaded := 0; skipped := 0; failures := 0 |}.

(** [main()]: the token check, the listing, the ledger and the two nested
    loops; it returns the counters of its last [print]. *)
Definition main (fuel : nat) (today : date) (env_token : option string)
  : M Summary :=
  let token := TOKEN env_token in
  if negb (str_truthy token) || str_contains PLACEHOLDER token then
    raise (SystemExit NO_TOKEN_MESSAGE)
  else
    ensure_folder ;;
    do signatures <- fetch_signatures_for_year fuel today token YEAR;
    open_ledger ;;
    process_signatures token signatures.

End Program.

(** A server that plays a script: each request gets the next outcome. *)
Definition scripted (script : list Outcome) (req : Request)
  : Outcome * list Outcome :=
  match script with
  | [] => (Unreachable "script exhausted", [])
  | o :: rest => (o, rest)
  end.

Definition ok_json (j : json) : Outcome :=
  Answered {| status_code := 200; text := ""; content := ""; json_body := Some j |}.
Definition ok_bytes (b : string) : Outcome :=
  Answered {| status_code := 200; text := ""; content := b; json_body := None |}.
Definition status_only (code : Z) (body : string) : Outcome :=
  Answered {| status_code := code; text := body; content := body; json_body := None |}.

Definition initial_world {Srv} (srv : Srv) (f : gmap string node) : World :=
  {| server := srv; trace := []; folder := f |}.

(** ** [mask_token]

    <<
    def mask_token(token: str) -> str:
        try:
            if not token:
                return "<empty>"
            if len(token) <= 12:
                return token
            return token[:6] + "..." + token[-4:]
        except Exception:
            return "<hidden>"
    >>
    [main] passes [TOKEN], a [str]: truthiness, [len], slicing and
    concatenation of strings do not raise, so the handler is never
    entered.  [token[-4:]] is taken on a token of more than 12 characters,
    where it is the slice from [len(token) - 4]. *)
Definition mask_token (token : string) : string :=
  if negb (str_truthy token) then "<empty>"
  else if (String.length token <=? 12)%nat then token
  else str_take 6 token +:+ "..."
       +:+ str_drop (String.length token - 4) token.

(** ** The vocabulary of the properties *)

Definition is_space (c : ascii) : Prop := py_isspace c = true.

(** A string in which white space never follows white space, and which
    does not start with white space when [after_space] holds. *)
Fixpoint spaced (after_space : bool) (s : string) : Prop :=
  match s with
  | EmptyString => True
  | String c s' =>
      (py_isspace c = true → after_space = false) ∧ spaced (py_isspace c) s'
  end.

(** The last character of a string, if any. *)
Definition last_char (s : string) : option ascii := last (chars s).

Definition underscore_forbidden (c : ascii) : ascii :=
  if forbidden_char c then "_"%char else c.

Definition visible (c : ascii) : bool := negb (py_isspace c).

(** A folder that holds [report.pdf] and nothing else. *)
Definition report_folder : gmap string node :=
  {[ "report.pdf" := File [Bytes "%PDF old"] ]}.

(** The delay before retry number [i] (counted from 0): the initial
    backoff doubled [i] times. *)
Definition backoff_at (i : nat) : Q :=
  Nat.iter i (λ b, (b * 2)%Q) INITIAL_BACKOFF_SECONDS.

(** What a call leaves in the trace when the attempts, starting with
    retry number [i], got the outcomes [os]: one request per outcome and
    one sleep between two consecutive requests. *)
Fixpoint retry_trace (req : Request) (i : nat) (os : list Outcome)
  : list Event :=
  match os with
  | [] => []
  | o :: os' =>
      Got req o ::
      match os' with
      | [] => []
      | _ => Slept (backoff_at i) :: retry_trace req (S i) os'
      end
  end.

(** An outcome that [api_get] answers with a retry. *)
Definition retryable (o : Outcome) : Prop :=
  ∃ resp, o = Answered resp ∧ retry_status (status_code resp) = true.

(** The outcomes of sending [req] [n] times in a row, and the server
    state after them. *)
Fixpoint serve_repeat {Srv} (serve : Srv → Request → Outcome * Srv)
    (srv : Srv) (req : Request) (n : nat) : list Outcome * Srv :=
  match n with
  | O => ([], srv)
  | S n' =>
      let '(o, srv') := serve srv req in
      let '(os, srv'') := serve_repeat serve srv' req n' in
      (o :: os, srv'')
  end.

(** The delays slept, in order. *)
Definition sleeps {Srv} (w : @World Srv) : list Q :=
  omap (λ e, match e with Slept d => Some d | Got _ _ => None end) (trace w).

(** The requests sent, in order. *)
Definition requests {Srv} (w : @World Srv) : list Request :=
  omap (λ e, match e with Got req _ => Some req | Slept _ => None end)
       (trace w).

(** The message of the [RuntimeError] the lister raises on a response
    that is not a 200. *)
Definition listing_failure (resp : Response) : exn :=
  RuntimeError ("Failed to list signatures: "
                +:+ str_of_int (status_code resp) +:+ " " +:+ text resp).



(** A token is usable when [main] does not reject it. *)
Definition token_ok (env_token : option string) : bool :=
  negb (negb (str_truthy (TOKEN env_token))
        || str_contains PLACEHOLDER (TOKEN env_token)).

(** Example data: a date of a later year, a full page and a short page. *)
Definition a_day_in_2026 : date := {| d_year := 2026; d_month := 3; d_day := 7 |}.

(** Example servers for the retry logic. *)
Definition throttled_twice : list Outcome :=
  [status_only 429 "slow down"; status_only 429 "slow down";
   ok_json (JArr [])].
Definition always_500 : list Outcome :=
  replicate 5 (status_only 500 "boom").

(** [matches pat s n]: the pattern matches the first [n] characters of
    [s], by some choice of how many characters each repetition takes. *)
Inductive matches : list atom → string → nat → Prop :=
| matches_nil s : matches [] s 0
| matches_lit c pat s n :
    matches pat s n → matches (Lit c :: pat) (String c s) (S n)
| matches_eos_end pat n :
    matches pat "" n → matches (Eos :: pat) "" n
| matches_eos_newline pat n :
    matches pat (String "010" "") n → matches (Eos :: pat) (String "010" "") n
| matches_plus_last cls pat a s n :
    cls a = true → matches pat s n →
    matches (Plus cls :: pat) (String a s) (S n)
| matches_plus_more cls pat a s n :
    cls a = true → matches (Plus cls :: pat) s n →
    matches (Plus cls :: pat) (String a s) (S n).

(** An atom that consumes no white space. *)
Definition atom_no_space (a : atom) : Prop :=
  match a with
  | Lit c => py_isspace c = false
  | Plus cls => ∀ c, cls c = true → py_isspace c = false
  | Eos => True
  end.

Definition is_eos (a : atom) : bool :=
  match a with Eos => true | _ => false end.

(** The test of [add_email] on one candidate: a string that, stripped,
    matches the anchored pattern is accepted in its stripped form. *)
Definition accept (e : json) : option string :=
  match e with
  | JStr s => if re_match EMAIL_ANCHORED (strip s) then Some (strip s) else None
  | _ => None
  end.

(** A list without its repetitions, each element at the place of its
    first occurrence. *)
Fixpoint first_seen (l : list string) : list string :=
  match l with
  | [] => []
  | x :: l' => x :: List.filter (λ y, negb (String.eqb y x)) (first_seen l')
  end.

(** The candidates one entry of a structured collection offers: its own
    [email] field and, when its [user] field is an object, that object's
    [email] field as well. *)
Definition item_candidates (it : json) : list json :=
  match it with
  | JObj d =>
      dict_get d "email" ::
      match dict_get d "user" with
      | JObj user => [dict_get user "email"]
      | _ => []
      end
  | _ => []
  end.

(** The candidates of the collections [signers], [recipients] and
    [participants] of a container, in this order. *)
Definition structured_candidates (container : list (string * json))
  : list json :=
  flat_map (λ key,
              match dict_get container key with
              | JArr items => flat_map item_candidates items
              | _ => []
              end) HARVEST_KEYS.

(** Every match of the email pattern in the string leaves of a value:
    the values of objects and the items of lists, in order. *)
Fixpoint email_matches (o : json) : list string :=
  match o with
  | JObj fields => flat_map (λ kv, let '(_, v) := kv in email_matches v) fields
  | JArr items => flat_map email_matches items
  | JStr s => findall EMAIL_PATTERN s
  | _ => []
  end.

(** The two strategies, on a value that may or may not be an object. *)
Definition structured_scan (j : json) : list string :=
  match j with
  | JObj d => first_seen (omap accept (structured_candidates d))
  | _ => []
  end.

Definition deep_search (j : json) : list string :=
  match j with
  | JObj _ => first_seen (email_matches j)
  | _ => []
  end.

(** The first list that is not empty, or the empty list. *)
Fixpoint first_nonempty (ls : list (list string)) : list string :=
  match ls with
  | [] => []
  | [] :: rest => first_nonempty rest
  | l :: _ => l
  end.

(** The structured scan as the specification words it: of each entry the
    direct [email] field and, only if that is absent, the [email] field
    of the embedded [user] object. *)
Definition spec_item_candidates (it : json) : list json :=
  match it with
  | JObj d =>
      match dict_get d "email" with
      | JNull =>
          match dict_get d "user" with
          | JObj user => [dict_get user "email"]
          | _ => []
          end
      | e => [e]
      end
  | _ => []
  end.

Definition spec_structured_scan (j : json) : list string :=
  match j with
  | JObj d =>
      first_seen
        (omap accept
           (flat_map (λ key,
                        match dict_get d key with
                        | JArr items => flat_map spec_item_candidates items
                        | _ => []
                        end) HARVEST_KEYS))
  | _ => []
  end.

Definition spec_extract_emails (sig_summary sig_detail : json) : list string :=
  first_nonempty [spec_structured_scan sig_detail;
                  spec_structured_scan sig_summary;
                  deep_search sig_detail; deep_search sig_summary].

(** The detail of the specification's example, and one whose only signer
    has both a direct email and a user email. *)
Definition same_signer_twice : json :=
  JObj [("signers", JArr [JObj [("email", JStr "a@x.com")];
                          JObj [("email", JStr "a@x.com")]])].
Definition signer_with_user : json :=
  JObj [("signers", JArr [JObj [("email", JStr "a@x.com");
                                ("user", JObj [("email", JStr "b@x.com")])]])].

(** Appending to [emails] unless already there. *)
Definition push (acc : list string) (x : string) : list string :=
  if bool_decide (x ∈ acc) then acc else acc ++ [x].

(** Induction on JSON values, with the hypothesis for every item of a
    list and every value of an object. *)
Section JsonInduction.
Variable P : json → Prop.
Hypothesis Hnull : P JNull.
Hypothesis Hbool : ∀ b, P (JBool b).
Hypothesis Hnum : ∀ n, P (JNum n).
Hypothesis Hstr : ∀ s, P (JStr s).
Hypothesis Harr : ∀ items, Forall P items → P (JArr items).
Hypothesis Hobj : ∀ fields, Forall (λ kv, P (snd kv)) fields → P (JObj fields).

Fixpoint json_induction (j : json) : P j :=
  match j with
  | JNull => Hnull
  | JBool b => Hbool b
  | JNum n => Hnum n
  | JStr s => Hstr s
  | JArr items =>
      Harr items
        ((fix go (l : list json) : Forall P l :=
            match l with
            | [] => @List.Forall_nil _ P
            | x :: l' => @List.Forall_cons _ P x l' (json_induction x) (go l')
            end) items)
  | JObj fields =>
      Hobj fields
        ((fix go (l : list (string * json)) : Forall (λ kv, P (snd kv)) l :=
            match l with
            | [] => @List.Forall_nil _ (λ kv, P (snd kv))
            | kv :: l' =>
                @List.Forall_cons _ (λ kv, P (snd kv)) kv l'
                  (let '(_, v) as p := kv return P (snd p) in json_induction v)
                  (go l')
            end) fields)
  end.
End JsonInduction.

(** The identifier and the original name [main] reads off a document,
    and the sanitized name it derives; an exception when the document
    has not the shape the script relies on. *)
Definition document_names (email_used : string) (doc : json)
  : exn + (json * json * string) :=
  match doc with
  | JObj d =>
      let doc_id := dict_get d "id" in
      match py_or (dict_get_or d "file" (JObj [])) (JObj []) with
      | JObj file_info =>
          let original_name :=
            py_or (dict_get file_info "name") (JStr (py_str doc_id +:+ ".pdf")) in
          match safe_name_of email_used original_name with
          | Some safe_name => inr (doc_id, original_name, safe_name)
          | None => inl (TypeError "expected string or bytes-like object")
          end
      | j => inl (AttributeError j "get")
      end
  | j => inl (AttributeError j "get")
  end.

(** The chunks written to the ledger of a folder. *)
Definition ledger (f : gmap string node) : list chunk :=
  match f !! LOG_NAME with
  | Some (File data) => data
  | _ => []
  end.

(** The counters after one more download, or one more failure. *)
Definition count_download (c : Summary) : Summary :=
  {| downloaded := downloaded c + 1; skipped := skipped c;
     failures := failures c |}.
Definition count_failure (c : Summary) : Summary :=
  {| downloaded := downloaded c; skipped := skipped c;
     failures := failures c + 1 |}.

(** A world with its folder replaced. *)
Definition with_folder {Srv} (w : @World Srv) (f : gmap string node)
  : @World Srv :=
  {| server := server w; trace := trace w; folder := f |}.
















(** The rows of the ledger of a folder. *)
Definition csv_rows (f : gmap string node) : list (list json) :=
  omap (λ c, match c with CsvRow row => Some row | _ => None end) (ledger f).

(** The status column of a row. *)
Definition row_status (row : list json) : option json := row !! 6%nat.

Definition signed_by_user : json :=
  JObj [("signers", JArr [JObj [("email", JStr "user@example.com")]])].

(** Example: one signature request with one document, and the answers of
    the API to a run over it. *)
Definition one_report : json :=
  JObj [("id", JStr "s1"); ("created_at", JStr "2024-02-01");
        ("documents",
         JArr [JObj [("id", JStr "d1");
                     ("file", JObj [("name", JStr "report.pdf")])]])].
Definition one_report_server : list Outcome :=
  [ok_json (JArr [one_report]); ok_json signed_by_user; ok_bytes "%PDF-1"].

(** The first run, over an empty folder, and a second run over the
    folder the first one left. *)
Definition first_run : result Summary * @World (list Outcome) :=
  main scripted 2 a_day_in_2026 (Some "tok")
    (initial_world one_report_server ∅).
Definition second_run : result Summary * @World (list Outcome) :=
  main scripted 2 a_day_in_2026 (Some "tok")
    (initial_world one_report_server (folder (snd first_run))).

(** Example: two documents whose names have no extension. *)
Definition two_contracts : json :=
  JObj [("id", JStr "s2"); ("created_at", JStr "2024-03-01");
        ("documents",
         JArr [JObj [("id", JStr "d1"); ("file", JObj [("name", JStr "contract")])];
               JObj [("id", JStr "d2"); ("file", JObj [("name", JStr "contract")])]])].
Definition two_contracts_run : result Summary * @World (list Outcome) :=
  main scripted 2 a_day_in_2026 (Some "tok")
    (initial_world [ok_json (JArr [two_contracts]); ok_json signed_by_user;
                    ok_bytes "%PDF-1"; ok_bytes "%PDF-2"] ∅).

(** A name [sanitize_filename] has nothing to do on: not empty, free of
    the forbidden characters, its only white space the space character,
    never two in a row and none at either end. *)
Definition clean_name (s : string) : Prop :=
  s ≠ ""
  ∧ Forall (λ c, forbidden_char c = false) (chars s)
  ∧ (∀ c, c ∈ chars s → py_isspace c = true → c = " "%char)
  ∧ spaced true s
  ∧ (∀ c, last_char s = Some c → py_isspace c = false).

(** A decimal digit. *)
Definition digit (c : ascii) : bool :=
  existsb (Ascii.eqb c) (chars "0123456789").

(** A character other than the dot. *)
Definition not_dot (c : ascii) : bool := negb (Ascii.eqb c ".").

(** The seconds slept in a sequence of events, added up. *)
Definition total_slept (evs : list Event) : Q :=
  fold_right (λ e acc, match e with Slept d => (d + acc)%Q | Got _ _ => acc end)
    0%Q evs.

(** The requests sent in a sequence of events, in order. *)
Definition sent (evs : list Event) : list Request :=
  omap (λ e, match e with Got req _ => Some req | Slept _ => None end) evs.

(** The requests of a download and of a detail fetch. *)
Definition download_request (token : string) (sig_id doc_id : json) : Request :=
  api_request ("/signatures/" +:+ py_str sig_id +:+ "/documents/"
               +:+ py_str doc_id +:+ "/download/signed") token None true.

Definition detail_request (token : string) (sig_id : json) : Request :=
  api_request ("/signatures/" +:+ py_str sig_id +:+ ".json") token None false.

(** The [RuntimeError] raised on a final response that is not a 200, by
    the download and by the detail fetch. *)
Definition download_failure (resp : Response) : exn :=
  RuntimeError ("Download failed (" +:+ str_of_int (status_code resp)
                +:+ "): " +:+ text resp).

Definition detail_failure (sig_id : json) (resp : Response) : exn :=
  RuntimeError ("Failed to fetch signature detail " +:+ py_str sig_id +:+ ": "
                +:+ str_of_int (status_code resp) +:+ " " +:+ text resp).

(** A computation keeps a relation between worlds when every run of it
    relates the world it starts in to the world it ends in, whatever its
    result. *)
Definition keeps {Srv A} (R : @World Srv → @World Srv → Prop) (m : @M Srv A)
  : Prop :=
  ∀ w, R w (snd (m w)).

(** The ledger of a folder is there, and is a file. *)
Definition has_ledger (f : gmap string node) : Prop :=
  ∃ data, f !! LOG_NAME = Some (File data).

(** The row of a document: eight fields, the status one of the two the
    script can reach. *)
Definition document_row (row : list json) : Prop :=
  length row = 8%nat
  ∧ (row_status row = Some (JStr "downloaded")
     ∨ row_status row = Some (JStr "error")).

(** What the script writes to the ledger: the header or the row of a
    document. *)
Definition ledger_chunk (c : chunk) : Prop :=
  ∃ row, c = CsvRow row ∧ (row = HEADER_ROW ∨ document_row row).

(** [kept f f']: nothing of folder [f] is lost in folder [f'].  Every
    file but the ledger is there with the same content, every folder is
    there with at least the entries it had, and the ledger has grown at
    its end, by headers and document rows only. *)
Definition kept (f f' : gmap string node) : Prop :=
  (∀ name data, name ≠ LOG_NAME → f !! name = Some (File data) →
                f' !! name = Some (File data))
  ∧ (∀ name es, name ≠ LOG_NAME → f !! name = Some (Dir es) →
                ∃ es', f' !! name = Some (Dir es') ∧ es ⊆ es')
  ∧ (∃ added, ledger f' = ledger f ++ added ∧ Forall ledger_chunk added).

(** The invariant of the loops of [main], which run with the ledger
    open: nothing is lost and the ledger stays a file. *)
Definition kept_with_ledger {Srv} (w w' : @World Srv) : Prop :=
  has_ledger (folder w) →
  kept (folder w) (folder w') ∧ has_ledger (folder w').

(** Example: a folder that holds one debug sample. *)
Definition one_sample : gmap string (list chunk) :=
  {[ "s0.json" := [JsonText (JObj [("id", JStr "s0")])] ]}.
Definition sample_folder : gmap string node := {[ DEBUG_DIR := Dir one_sample ]}.

(** An event of a run that talks to the API only: a request to a URL
    under the base URL, with the token in the authorization header, no
    other header and the timeout of 60 seconds; or a sleep of one of the
    four delays of the backoff. *)
Definition api_event (token : string) (e : Event) : Prop :=
  match e with
  | Got req _ =>
      headers req = [("Authorization", "Bearer " +:+ token)]
      ∧ String.prefix BASE_URL (url req) = true
      ∧ timeout req = 60
  | Slept d => ∃ i, (i < 4)%nat ∧ d = backoff_at i
  end.

(** From world [w] to world [w'] the trace grew by such events only. *)
Definition api_only {Srv} (token : string) (w w' : @World Srv) : Prop :=
  ∃ evs, trace w' = trace w ++ evs ∧ Forall (api_event token) evs.



(** The shape of an address, in elementary terms: a local part, an at
    sign, a domain part, a dot and a last part; the three parts are not
    empty and hold neither an at sign nor white space (the domain part
    may hold further dots). *)
Definition email_shape (e : string) : Prop :=
  ∃ u v x,
    chars e = u ++ "@"%char :: v ++ "."%char :: x
    ∧ u ≠ [] ∧ v ≠ [] ∧ x ≠ []
    ∧ Forall (λ c, email_char c = true) (u ++ v ++ x).

(** The string of a list of characters. *)
Fixpoint of_chars (l : list ascii) : string :=
  match l with
  | [] => EmptyString
  | c :: l' => String c (of_chars l')
  end.


(** The strings a JSON value holds as values, at any depth: the value
    itself, the items of its lists, the values of its objects (the keys
    of an object are no values). *)
Fixpoint string_values (j : json) : list string :=
  match j with
  | JStr s => [s]
  | JArr items => flat_map string_values items
  | JObj fields => flat_map (λ kv, let '(_, v) := kv in string_values v) fields
  | _ => []
  end.

(** [s] occurs in [t]: it is a run of consecutive characters of [t]. *)
Definition occurs_in (s t : string) : Prop := ∃ a b, t = a +:+ s +:+ b.

(** ** Strings as character lists *)

Lemma chars_cons c s : chars (String c s) = c :: chars s.
Proof. reflexivity. Qed.

Lemma str_app_cons c s1 s2 : String c s1 +:+ s2 = String c (s1 +:+ s2).
Proof. reflexivity. Qed.

Lemma chars_app s1 s2 : chars (s1 +:+ s2) = chars s1 ++ chars s2.
Proof.
  induction s1 as [|c s1 IH]; [done|].
  rewrite str_app_cons. cbn [chars]. by rewrite IH.
Qed.

Lemma chars_inj s1 s2 : chars s1 = chars s2 → s1 = s2.
Proof.
  revert s2. induction s1 as [|c s1 IH]; intros [|c2 s2]; cbn; try done.
  intros [= -> H]. f_equal. by apply IH.
Qed.

Lemma chars_str_map f s : chars (str_map f s) = map f (chars s).
Proof. induction s as [|c s IH]; [done|]. cbn. by rewrite IH. Qed.

Lemma str_app_nil_r s : s +:+ "" = s.
Proof. apply chars_inj. by rewrite chars_app, app_nil_r. Qed.

Lemma str_app_assoc s1 s2 s3 : (s1 +:+ s2) +:+ s3 = s1 +:+ s2 +:+ s3.
Proof. apply chars_inj. by rewrite !chars_app, app_assoc. Qed.

(** ** [sanitize_filename] *)

Lemma collapse_ws_from_spaced b s : spaced b (collapse_ws_from b s).
Proof.
  revert b. induction s as [|c s IH]; intros b; cbn; [done|].
  destruct (py_isspace c) eqn:Hc.
  - destruct b; [|cbn; split; [done|]].
    + specialize (IH true). remember (collapse_ws_from true s) as r.
      destruct r; cbn in *; [done|]. done.
    + change (py_isspace " ") with true. apply IH.
  - cbn. rewrite Hc. split; [done|]. apply IH.
Qed.

Lemma collapse_ws_from_elem b s c :
  c ∈ chars (collapse_ws_from b s) →
  c = " "%char ∨ (c ∈ chars s ∧ py_isspace c = false).
Proof.
  revert b. induction s as [|a s IH]; intros b; cbn.
  { by intros ?%elem_of_nil. }
  destruct (py_isspace a) eqn:Ha.
  - destruct b.
    + intros [?|[? ?]]%IH; [by left|right]. split; [by right|done].
    + cbn [chars]. intros [->|[?|[? ?]]%IH]%elem_of_cons; [by left|by left|].
      right. split; [by right|done].
  - cbn [chars]. intros [->|[?|[? ?]]%IH]%elem_of_cons.
    + right. split; [by left|done].
    + by left.
    + right. split; [by right|done].
Qed.

Lemma lstrip_elem s c : c ∈ chars (lstrip s) → c ∈ chars s.
Proof.
  induction s as [|a s IH]; cbn; [done|].
  destruct (py_isspace a); [|done]. intros ?. right. by apply IH.
Qed.

Lemma rstrip_elem s c : c ∈ chars (rstrip s) → c ∈ chars s.
Proof.
  induction s as [|a s IH]; cbn; [done|].
  destruct (rstrip s) as [|b r] eqn:Hr.
  - destruct (py_isspace a); [by intros ?%elem_of_nil|].
    cbn [chars]. intros [->|?%elem_of_nil]%elem_of_cons; [by left|done].
  - cbn [chars]. intros [->|?]%elem_of_cons; [by left|].
    right. apply IH. by rewrite chars_cons.
Qed.

Lemma strip_elem s c : c ∈ chars (strip s) → c ∈ chars s.
Proof. intros ?%rstrip_elem%lstrip_elem. done. Qed.

Lemma lstrip_spaced b s : spaced b s → spaced true (lstrip s).
Proof.
  revert b. induction s as [|a s IH]; intros b; cbn; [done|].
  intros [H1 H2]. destruct (py_isspace a) eqn:Ha.
  - by eapply IH.
  - cbn. rewrite Ha. done.
Qed.

Lemma rstrip_spaced b s : spaced b s → spaced b (rstrip s).
Proof.
  revert b. induction s as [|a s IH]; intros b; cbn; [done|].
  intros [H1 H2]. apply IH in H2.
  destruct (rstrip s) as [|c r] eqn:Hr.
  - destruct (py_isspace a) eqn:Ha; cbn; [done|]. rewrite Ha. done.
  - cbn. split; [done|]. done.
Qed.

Lemma rstrip_last s c : last_char (rstrip s) = Some c → py_isspace c = false.
Proof.
  unfold last_char. induction s as [|a s IH]; cbn; [done|].
  destruct (rstrip s) as [|b r] eqn:Hr.
  - destruct (py_isspace a) eqn:Ha; cbn; [done|]. by intros [= <-].
  - cbn [chars] in *. rewrite last_cons. 
    destruct (last (b :: chars r)) eqn:Hl; [|by apply last_None in Hl].
    intros [= <-]. by apply IH.
Qed.



Lemma rstrip_all_space s :
  Forall is_space (chars s) → rstrip s = "".
Proof.
  induction s as [|a s IH]; cbn; [done|].
  rewrite Forall_cons. intros [Ha Hs]. rewrite (IH Hs).
  unfold is_space in Ha. by rewrite Ha.
Qed.

Lemma lstrip_all_space s :
  Forall is_space (chars s) → lstrip s = "".
Proof.
  induction s as [|a s IH]; cbn; [done|].
  rewrite Forall_cons. intros [Ha Hs]. unfold is_space in Ha. rewrite Ha. auto.
Qed.

Lemma collapse_ws_from_all_space b s :
  Forall is_space (chars s) → Forall is_space (chars (collapse_ws_from b s)).
Proof.
  revert b. induction s as [|a s IH]; intros b; cbn; [done|].
  rewrite Forall_cons. intros [Ha Hs]. unfold is_space in Ha. rewrite Ha.
  destruct b; [by apply IH|]. cbn [chars]. constructor; [done|by apply IH].
Qed.

Lemma forbidden_not_space c : forbidden_char c = true → py_isspace c = false.
Proof.
  unfold forbidden_char. cbn. rewrite !orb_true_iff.
  intros H. repeat destruct H as [H|H]; try done;
    apply Ascii.eqb_eq in H; by subst.
Qed.

Lemma underscore_forbidden_space c :
  py_isspace (underscore_forbidden c) = py_isspace c.
Proof.
  unfold underscore_forbidden. destruct (forbidden_char c) eqn:H; [|done].
  apply forbidden_not_space in H. by rewrite H.
Qed.

Lemma underscore_forbidden_ok c : forbidden_char (underscore_forbidden c) = false.
Proof. unfold underscore_forbidden. by destruct (forbidden_char c) eqn:H. Qed.

Lemma collapse_ws_from_visible b s :
  List.filter visible (chars (collapse_ws_from b s))
  = List.filter visible (chars s).
Proof.
  revert b. induction s as [|a s IH]; intros b; [done|].
  cbn [collapse_ws_from chars List.filter]. unfold visible at 2.
  destruct (py_isspace a) eqn:Ha; cbn [negb].
  - destruct b; [by rewrite IH|]. cbn [chars List.filter].
    change (visible " ") with false. cbn iota. by rewrite IH.
  - cbn [chars List.filter]. unfold visible at 1. rewrite Ha. cbn [negb].
    by rewrite IH.
Qed.

Lemma lstrip_visible s :
  List.filter visible (chars (lstrip s)) = List.filter visible (chars s).
Proof.
  induction s as [|a s IH]; [done|].
  cbn [lstrip chars List.filter]. unfold visible at 2.
  destruct (py_isspace a) eqn:Ha; cbn [negb]; [done|].
  cbn [chars List.filter]. unfold visible at 1. by rewrite Ha.
Qed.

Lemma rstrip_visible s :
  List.filter visible (chars (rstrip s)) = List.filter visible (chars s).
Proof.
  induction s as [|a s IH]; [done|].
  cbn [rstrip chars List.filter]. rewrite <- IH.
  destruct (rstrip s) as [|b r] eqn:Hr.
  - unfold visible. destruct (py_isspace a) eqn:Ha; cbn [negb chars List.filter]; [done|].
    by rewrite Ha.
  - cbn [chars List.filter]. done.
Qed.

Lemma str_truthy_false s : str_truthy s = false → s = "".
Proof. by destruct s. Qed.

(** The name before the default is substituted. *)
Lemma sanitize_core_visible name :
  List.filter visible (chars (strip (collapse_ws (replace_forbidden name))))
  = map underscore_forbidden (List.filter visible (chars name)).
Proof.
  unfold strip, collapse_ws, replace_forbidden.
  rewrite rstrip_visible, lstrip_visible, collapse_ws_from_visible,
    chars_str_map.
  fold underscore_forbidden.
  change (λ c, if forbidden_char c then "_"%char else c)
    with underscore_forbidden.
  induction (chars name) as [|a l IH]; [done|].
  cbn [map List.filter].
  replace (visible (underscore_forbidden a)) with (visible a)
    by (unfold visible; by rewrite underscore_forbidden_space).
  destruct (visible a); cbn [map]; by rewrite IH.
Qed.

Lemma sanitize_core_elem name c :
  c ∈ chars (strip (collapse_ws (replace_forbidden name))) →
  c = " "%char ∨ (forbidden_char c = false ∧ py_isspace c = false).
Proof.
  intros Hc%strip_elem. apply collapse_ws_from_elem in Hc as [->|[Hc Hs]];
    [by left|right]. split; [|done].
  unfold replace_forbidden in Hc. rewrite chars_str_map in Hc.
  apply list_elem_of_fmap in Hc as (a & -> & _).
  apply underscore_forbidden_ok.
Qed.

Lemma all_space_visible name :
  Forall is_space (chars name) ↔ List.filter visible (chars name) = [].
Proof.
  induction (chars name) as [|a l IH]; [done|]. cbn [List.filter].
  rewrite Forall_cons, IH. unfold visible, is_space.
  destruct (py_isspace a); cbn [negb]; intuition congruence.
Qed.

Lemma sanitize_core_empty name :
  strip (collapse_ws (replace_forbidden name)) = "" ↔ Forall is_space (chars name).
Proof.
  split.
  - intros H. apply all_space_visible.
    pose proof (sanitize_core_visible name) as Hvis. rewrite H in Hvis.
    symmetry in Hvis. by apply fmap_nil_inv in Hvis.
  - intros Hall. unfold strip, collapse_ws. apply rstrip_all_space.
    rewrite lstrip_all_space; [done|]. apply collapse_ws_from_all_space.
    unfold replace_forbidden. rewrite chars_str_map. apply Forall_fmap.
    eapply Forall_impl; [exact Hall|].
    intros c Hc. unfold is_space in *. cbn.
    change (py_isspace (underscore_forbidden c) = true).
    by rewrite underscore_forbidden_space.
Qed.

Lemma sanitize_filename_forbidden_free name :
  Forall (λ c, forbidden_char c = false) (chars (sanitize_filename name)).
Proof.
  unfold sanitize_filename.
  destruct (str_truthy _) eqn:Ht; [|by vm_compute; repeat constructor].
  apply Forall_forall. by intros c [->|[? _]]%sanitize_core_elem.
Qed.

Lemma sanitize_filename_visible name :
  ¬ Forall is_space (chars name) →
  List.filter visible (chars (sanitize_filename name))
  = map underscore_forbidden (List.filter visible (chars name)).
Proof.
  intros Hns. unfold sanitize_filename.
  destruct (str_truthy _) eqn:Ht; [apply sanitize_core_visible|].
  apply str_truthy_false in Ht. by apply sanitize_core_empty in Ht.
Qed.



(** ** [build_date_range_for_year] *)

(** C10. For every year [Y] the range starts at [Y-01-01]; it ends at
    [Y-12-31], except when [Y] is the current year, where it ends at
    today's ISO date. *)
Theorem build_date_range_for_year_spec (today : date) (Y : Z) :
  fst (build_date_range_for_year today Y) = str_of_int Y +:+ "-01-01"
  ∧ (Y ≠ d_year today →
       snd (build_date_range_for_year today Y) = str_of_int Y +:+ "-12-31")
  ∧ (Y = d_year today →
       snd (build_date_range_for_year today Y) = isoformat today)
  ∧ build_date_range_for_year {| d_year := 2026; d_month := 3; d_day := 7 |} 2024
    = ("2024-01-01", "2024-12-31")
  ∧ build_date_range_for_year {| d_year := 2026; d_month := 3; d_day := 7 |} 2026
    = ("2026-01-01", "2026-03-07").
Proof.
  unfold build_date_range_for_year, today_iso. cbn [fst snd].
  repeat split; try done.
  - intros Hne. by apply Z.eqb_neq in Hne as ->.
  - intros ->. by rewrite Z.eqb_refl.
Qed.

(** In a past year the range ends on 31 December. *)
Lemma build_date_range_for_year_spec_witness :
  snd (build_date_range_for_year {| d_year := 2026; d_month := 3; d_day := 7 |} 2024)
  = str_of_int 2024 +:+ "-12-31".
Proof.
  apply (build_date_range_for_year_spec
           {| d_year := 2026; d_month := 3; d_day := 7 |} 2024).
  cbn. lia.
Defined.

(** ** [splitext] *)

Lemma str_take_drop n s : str_take n s +:+ str_drop n s = s.
Proof.
  revert s. induction n as [|n IH]; intros [|c s]; cbn [str_take str_drop]; try done.
  by rewrite str_app_cons, IH.
Qed.

Lemma splitext_app p : fst (splitext p) +:+ snd (splitext p) = p.
Proof.
  unfold splitext.
  destruct (_ && _); cbn [fst snd]; [apply str_take_drop|apply str_app_nil_r].
Qed.

(** ** [make_unique_filename] *)

Lemma str_app_inv_tail s1 s2 e : s1 +:+ e = s2 +:+ e → s1 = s2.
Proof.
  intros H. apply chars_inj. apply (f_equal chars) in H.
  rewrite !chars_app in H. by apply app_inv_tail in H.
Qed.

Lemma numbered_inj stem ext i j :
  numbered stem ext i = numbered stem ext j → i = j.
Proof.
  unfold numbered. intros H.
  apply (inj (String.app stem)) in H. apply (inj (String.app "_")) in H.
  apply str_app_inv_tail in H. by apply (inj pretty) in H.
Qed.

Lemma path_exists_dom (folder : gmap string node) name :
  path_exists folder name = true ↔ name ∈ dom folder.
Proof.
  unfold path_exists. rewrite bool_decide_eq_true. by rewrite elem_of_dom.
Qed.

(** The loop stops: among the numbered candidates from [k] on, those
    that exist lie in a set of at most [n] names. *)
Lemma unique_loop_total (folder : gmap string node) stem ext :
  ∀ n (Y : gset string) k,
    (size Y ≤ n)%nat →
    (∀ i, (k ≤ i)%nat → path_exists folder (numbered stem ext i) = true →
          numbered stem ext i ∈ Y) →
    is_Some (unique_loop (S n) folder stem ext (numbered stem ext k) (S k)).
Proof.
  induction n as [|n IH]; intros Y k Hsize HY; cbn [unique_loop].
  - destruct (path_exists folder (numbered stem ext k)) eqn:E; [|by eexists].
    apply HY in E; [|lia].
    assert (size Y = 0%nat) as Hs0%size_empty_inv by lia.
    by apply Hs0, not_elem_of_empty in E.
  - destruct (path_exists folder (numbered stem ext k)) eqn:E; [|by eexists].
    apply (IH (Y ∖ {[numbered stem ext k]})).
    + apply HY in E; [|lia].
      rewrite size_difference by (by apply singleton_subseteq_l).
      rewrite size_singleton. lia.
    + intros i Hi Hex. apply elem_of_difference. split; [apply HY; [lia|done]|].
      rewrite elem_of_singleton. intros Heq%numbered_inj. lia.
Qed.

(** What the loop returns: the first candidate that does not exist. *)
Lemma unique_loop_least (folder : gmap string node) stem ext :
  ∀ fuel cand k out,
    unique_loop fuel folder stem ext cand k = Some out →
    path_exists folder out = false
    ∧ ((out = cand)
       ∨ (path_exists folder cand = true
          ∧ ∃ j, (k ≤ j)%nat ∧ out = numbered stem ext j
                 ∧ ∀ i, (k ≤ i < j)%nat →
                        path_exists folder (numbered stem ext i) = true)).
Proof.
  induction fuel as [|fuel IH]; intros cand k out; cbn [unique_loop]; [done|].
  destruct (path_exists folder cand) eqn:E.
  - intros H. apply IH in H as [Hfree [->|(Hk & j & Hj & -> & Hbelow)]].
    + split; [done|]. right. split; [done|]. exists k. split; [lia|].
      split; [done|]. intros i Hi. lia.
    + split; [done|]. right. split; [done|]. exists j. split; [lia|].
      split; [done|]. intros i Hi.
      destruct (decide (i = k)) as [->|]; [done|]. apply Hbelow. lia.
  - intros [= <-]. split; [done|]. by left.
Qed.

Lemma make_unique_filename_total (folder : gmap string node) filename :
  is_Some (make_unique_filename folder filename).
Proof.
  unfold make_unique_filename. destruct (splitext filename) as [stem ext].
  cbn [unique_loop].
  destruct (path_exists folder filename); [|by eexists].
  apply (unique_loop_total folder stem ext (size folder) (dom folder) 2).
  - by rewrite size_dom.
  - intros i _. by rewrite path_exists_dom.
Qed.

Lemma make_unique_filename_least (folder : gmap string node) filename out :
  make_unique_filename folder filename = Some out →
  path_exists folder out = false
  ∧ ((out = filename)
     ∨ (path_exists folder filename = true
        ∧ ∃ j, (2 ≤ j)%nat
               ∧ out = numbered (fst (splitext filename))
                                (snd (splitext filename)) j
               ∧ ∀ i, (2 ≤ i < j)%nat →
                      path_exists folder
                        (numbered (fst (splitext filename))
                                  (snd (splitext filename)) i) = true)).
Proof.
  unfold make_unique_filename. destruct (splitext filename) as [stem ext].
  apply unique_loop_least.
Qed.

Lemma make_unique_filename_fresh (folder : gmap string node) filename :
  ∃ out, make_unique_filename folder filename = Some out
         ∧ path_exists folder out = false.
Proof.
  destruct (make_unique_filename_total folder filename) as [out Hout].
  exists out. split; [done|]. by apply make_unique_filename_least in Hout as [? _].
Qed.

(** The first numbered candidate that is free is the one returned. *)
Lemma make_unique_filename_numbered (folder : gmap string node) filename j :
  path_exists folder filename = true →
  (2 ≤ j)%nat →
  (∀ i, (2 ≤ i < j)%nat →
        path_exists folder (numbered (fst (splitext filename))
                                     (snd (splitext filename)) i) = true) →
  path_exists folder (numbered (fst (splitext filename))
                               (snd (splitext filename)) j) = false →
  make_unique_filename folder filename
  = Some (numbered (fst (splitext filename)) (snd (splitext filename)) j).
Proof.
  intros Hex Hj Hbelow Hfree.
  destruct (make_unique_filename_total folder filename) as [out Hout].
  rewrite Hout. f_equal.
  apply make_unique_filename_least in Hout
    as [Hout [->|(_ & j' & Hj' & -> & Hbelow')]]; [congruence|].
  f_equal. destruct (Nat.lt_trichotomy j j') as [Hlt|[->|Hgt]]; [|done|].
  - rewrite Hbelow' in Hfree; [done|lia].
  - rewrite Hbelow in Hout; [done|lia].
Qed.

(** C3, as stated, fails: on a folder holding only [report.pdf] the call
    returns [report_2.pdf], and a further call made before any file is
    created returns [report_2.pdf] again, not [report_3.pdf]. *)
Lemma make_unique_filename_repeats_on_unchanged_folder :
  make_unique_filename report_folder "report.pdf" = Some "report_2.pdf"
  ∧ make_unique_filename report_folder "report.pdf" ≠ Some "report_3.pdf".
Proof. split; vm_compute; [reflexivity|discriminate]. Qed.

(** C3, amended.  With [report.pdf] present and [report_2.pdf] absent the
    call returns [report_2.pdf]; it returns [report_3.pdf] once
    [report_2.pdf] exists as well.  The folder is read anew on every
    call: after the returned name has been created, the next call for
    the same name returns another name, free in both folders.  (On an
    unchanged folder the call, being a function of the folder, returns
    the same name.) *)
Theorem make_unique_filename_rereads_folder :
  (∀ folder : gmap string node,
     path_exists folder "report.pdf" = true →
     path_exists folder "report_2.pdf" = false →
     make_unique_filename folder "report.pdf" = Some "report_2.pdf")
  ∧ (∀ folder : gmap string node,
       path_exists folder "report.pdf" = true →
       path_exists folder "report_2.pdf" = true →
       path_exists folder "report_3.pdf" = false →
       make_unique_filename folder "report.pdf" = Some "report_3.pdf")
  ∧ (∀ (folder : gmap string node) filename out data,
       make_unique_filename folder filename = Some out →
       ∃ out', make_unique_filename (<[out := File data]> folder) filename
               = Some out'
               ∧ out' ≠ out
               ∧ path_exists folder out' = false
               ∧ path_exists (<[out := File data]> folder) out' = false).
Proof.
  split; [|split].
  - intros folder H1 H2.
    apply (make_unique_filename_numbered folder "report.pdf" 2);
      [done|lia| |done].
    intros i Hi. lia.
  - intros folder H1 H2 H3.
    apply (make_unique_filename_numbered folder "report.pdf" 3);
      [done|lia| |done].
    intros i Hi. assert (i = 2%nat) as -> by lia. exact H2.
  - intros folder filename out data _.
    destruct (make_unique_filename_fresh (<[out := File data]> folder) filename)
      as (out' & Hout' & Hfree).
    exists out'. split; [done|].
    assert (out' ∉ dom (<[out := File data]> folder)) as Hnot.
    { intros Hin%path_exists_dom. congruence. }
    rewrite dom_insert_L in Hnot.
    split; [set_solver|]. split; [|done].
    destruct (path_exists folder out') eqn:E; [|done].
    apply path_exists_dom in E. set_solver.
Qed.

(** The spec's example, with the second file written between the calls. *)
Lemma make_unique_filename_rereads_folder_witness :
  make_unique_filename report_folder "report.pdf" = Some "report_2.pdf"
  ∧ make_unique_filename
      (<["report_2.pdf" := File [Bytes "%PDF new"]]> report_folder) "report.pdf"
    = Some "report_3.pdf".
Proof.
  split.
  - apply (proj1 make_unique_filename_rereads_folder); by vm_compute.
  - apply (proj1 (proj2 make_unique_filename_rereads_folder)); by vm_compute.
Defined.

(** ** [api_get]: retry with exponential backoff *)

Section ApiGet.
Context {Srv : Type} (serve : Srv → Request → Outcome * Srv).

Lemma retry_status_iff code :
  retry_status code = true
  ↔ code = 429 ∨ code = 500 ∨ code = 502 ∨ code = 503 ∨ code = 504.
Proof.
  unfold retry_status, RETRY_STATUSES. cbn [existsb].
  rewrite !orb_true_iff, !Z.eqb_eq. intuition discriminate.
Qed.

Lemma retry_trace_cons req i o os :
  os ≠ [] →
  retry_trace req i (o :: os)
  = Got req o :: Slept (backoff_at i) :: retry_trace req (S i) os.
Proof. by destruct os. Qed.

(** The loop over the attempts [i+1 .. i+n], entered with the backoff of
    retry [i]. *)
Lemma api_get_loop_spec req :
  ∀ n i last w,
    (0 < n)%nat → (i + n = 5)%nat →
    ∃ os o,
      let '(r, w') :=
        api_get_loop serve (map Z.of_nat (seq (S i) n)) req (backoff_at i)
          last w in
      trace w' = trace w ++ retry_trace req i (os ++ [o])
      ∧ folder w' = folder w
      ∧ (os ++ [o], server w')
        = serve_repeat serve (server w) req (S (length os))
      ∧ (length os < n)%nat
      ∧ Forall retryable os
      ∧ match o with
        | Answered resp =>
            r = Ok resp
            ∧ (retry_status (status_code resp) = true →
               length os = (n - 1)%nat)
        | Unreachable msg => r = Raise (RequestException msg)
        end.
Proof.
  induction n as [|n IH]; intros i last w Hn Hi; [lia|].
  cbn [seq map api_get_loop]. unfold bind at 1. unfold requests_get.
  destruct (serve (server w) req) as [o srv'] eqn:Hserve.
  destruct o as [resp|msg].
  2:{ exists [], (Unreachable msg). cbn. rewrite Hserve.
      repeat split; try done; lia. }
  destruct (retry_status (status_code resp)) eqn:Hretry.
  2:{ exists [], (Answered resp). cbn -[retry_status]. rewrite Hserve.
      repeat split; try done; try lia. congruence. }
  destruct (Z.of_nat (S i) =? MAX_RETRIES) eqn:Hmax.
  { exists [], (Answered resp). cbn -[retry_status]. rewrite Hserve.
    apply Z.eqb_eq in Hmax. unfold MAX_RETRIES in Hmax.
    repeat split; try done; try lia. }
  apply Z.eqb_neq in Hmax. unfold MAX_RETRIES in Hmax.
  unfold bind at 1. unfold sleep, log_event. cbn [server trace folder].
  set (w1 := {| server := srv'; trace := _; folder := _ |}).
  destruct (IH (S i) (Some resp) w1) as (os & o & H); [lia|lia|].
  change (backoff_at i * 2)%Q with (backoff_at (S i)).
  destruct (api_get_loop serve _ req (backoff_at (S i)) (Some resp) w1)
    as [r w'].
  destruct H as (Htr & Hfo & Hsrv & Hlen & Hall & Hlast).
  exists (Answered resp :: os), o.
  repeat split.
  - rewrite Htr. unfold w1. cbn [trace]. rewrite <- !app_assoc. f_equal.
    change ((Answered resp :: os) ++ [o]) with (Answered resp :: (os ++ [o])).
    rewrite retry_trace_cons; [done|]. by destruct os.
  - by rewrite Hfo.
  - cbn [length serve_repeat]. rewrite Hserve.
    cbn [serve_repeat] in Hsrv. unfold w1 in Hsrv. cbn [server] in Hsrv.
    destruct (serve srv' req) as [o1 srv1].
    destruct (serve_repeat serve srv1 req (length os)) as [os1 srv2].
    by injection Hsrv as <- <-.
  - cbn [length]. lia.
  - constructor; [|done]. by exists resp.
  - destruct o as [resp'|msg]; [|done].
    destruct Hlast as [-> Hl]. split; [done|]. intros H. cbn [length].
    specialize (Hl H). lia.
Qed.

Lemma api_get_spec path token params stream (w : World) :
  let req := api_request path token params stream in
  ∃ os o,
    let '(r, w') := api_get serve path token params stream w in
    trace w' = trace w ++ retry_trace req 0 (os ++ [o])
    ∧ folder w' = folder w
    ∧ (os ++ [o], server w') = serve_repeat serve (server w) req (S (length os))
    ∧ (length os < 5)%nat
    ∧ Forall retryable os
    ∧ match o with
      | Answered resp =>
          r = Ok resp
          ∧ (retry_status (status_code resp) = true → length os = 4%nat)
      | Unreachable msg => r = Raise (RequestException msg)
      end.
Proof.
  intros req. unfold api_get.
  change (py_range 1 (MAX_RETRIES + 1)) with (map Z.of_nat (seq 1 5)).
  change INITIAL_BACKOFF_SECONDS with (backoff_at 0).
  apply (api_get_loop_spec req 5 0 None w); lia.
Qed.

Lemma api_get_folder path token params stream (w : World) :
  folder (snd (api_get serve path token params stream w)) = folder w.
Proof.
  destruct (api_get_spec path token params stream w) as (os & o & H).
  destruct (api_get serve path token params stream w) as [r w'].
  by destruct H as (_ & ? & _).
Qed.

End ApiGet.

(** ** [fetch_signatures_for_year]: pagination *)

Section Lister.
Context {Srv : Type} (serve : Srv → Request → Outcome * Srv).


(** One turn of the [while True] loop. *)
Lemma fetch_pages_step fuel token since until offset collected (w : World) :
  fetch_pages serve (S fuel) token since until offset collected w =
  match api_get serve "/signatures.json" token
          (Some (list_params since until offset)) false w with
  | (Ok resp, w') =>
      if negb (status_code resp =? 200) then (Raise (listing_failure resp), w')
      else
        match json_body resp with
        | None => (Raise JSONDecodeError, w')
        | Some page =>
            if negb (py_truthy page) then (Ok collected, w')
            else
              match py_iter page with
              | None => (Raise (NotIterable page), w')
              | Some items =>
                  if Z.of_nat (length items) <? PAGE_LIMIT
                  then (Ok (collected ++ items), w')
                  else fetch_pages serve fuel token since until
                         (offset + PAGE_LIMIT) (collected ++ items) w'
              end
        end
  | (Raise e, w') => (Raise e, w')
  | (OutOfFuel, w') => (OutOfFuel, w')
  end.
Proof.
  cbn [fetch_pages]. unfold bind at 1.
  destruct (api_get serve _ token _ false w) as [[resp|e|] w']; try done.
  destruct (negb (status_code resp =? 200)); [done|].
  unfold bind, resp_json. destruct (json_body resp) as [page|]; [|done].
  cbn. destruct (negb (py_truthy page)); [done|].
  destruct (py_iter page) as [items|]; [|done].
  by destruct (Z.of_nat (length items) <? PAGE_LIMIT).
Qed.




End Lister.

Section ListerClaims.
Context {Srv : Type} (serve : Srv → Request → Outcome * Srv).

Lemma main_listing_failure fuel today env_token (w : World) e w' :
  token_ok env_token = true →
  fetch_signatures_for_year serve fuel today (TOKEN env_token) YEAR w
  = (Raise e, w') →
  main serve fuel today env_token w = (Raise e, w').
Proof.
  unfold token_ok, main. intros Htok Hfetch.
  apply negb_true_iff in Htok. rewrite Htok.
  unfold ensure_folder, bind, ret. by rewrite Hfetch.
Qed.

End ListerClaims.



Section ApiGetFirst.
Context {Srv : Type} (serve : Srv → Request → Outcome * Srv).

(** A status outside the retry set is returned at once: one request, no
    sleep. *)
Lemma api_get_immediate path token params stream (w : World) resp srv' :
  serve (server w) (api_request path token params stream)
  = (Answered resp, srv') →
  retry_status (status_code resp) = false →
  api_get serve path token params stream w
  = (Ok resp,
     {| server := srv';
        trace := trace w
                 ++ [Got (api_request path token params stream) (Answered resp)];
        folder := folder w |}).
Proof.
  intros Hserve Hretry. unfold api_get.
  change (py_range 1 (MAX_RETRIES + 1)) with (map Z.of_nat (seq 1 5)).
  cbn [seq map api_get_loop]. unfold bind, requests_get.
  by rewrite Hserve, Hretry.
Qed.

End ApiGetFirst.

Lemma backoff_at_doubles i : (backoff_at (S i) == 2 * backoff_at i)%Q.
Proof. unfold backoff_at. cbn [Nat.iter]. apply Qmult_comm. Qed.

(** C4. [api_get] retries on the statuses 429, 500, 502, 503 and 504 and
    on no other; every retry is preceded by a sleep, the first of the
    initial backoff and each next one of twice the previous; there are at
    most five attempts; a response with another status is returned at
    once, and after the fifth retryable response that response is
    returned, no exception raised.  With the answers 429, 429, 200 the
    call sleeps 1.5 s and 3 s, sends three requests and returns the 200;
    with 500 on all five attempts it returns the last 500, on which the
    lister raises and [main] stops, as it does whenever the lister
    raises. *)
Theorem api_get_retries_with_backoff :
  (∀ code,
     retry_status code = true
     ↔ code = 429 ∨ code = 500 ∨ code = 502 ∨ code = 503 ∨ code = 504)
  ∧ (backoff_at 0 = INITIAL_BACKOFF_SECONDS
     ∧ ∀ i, (backoff_at (S i) == 2 * backoff_at i)%Q)
  ∧ (∀ Srv (serve : Srv → Request → Outcome * Srv)
       path token params stream (w : World),
       ∃ os o,
         trace (snd (api_get serve path token params stream w))
         = trace w
           ++ retry_trace (api_request path token params stream) 0 (os ++ [o])
         ∧ (os ++ [o], server (snd (api_get serve path token params stream w)))
           = serve_repeat serve (server w)
               (api_request path token params stream) (S (length os))
         ∧ (length os < 5)%nat
         ∧ Forall retryable os
         ∧ match o with
           | Answered resp =>
               fst (api_get serve path token params stream w) = Ok resp
               ∧ (retry_status (status_code resp) = true → length os = 4%nat)
           | Unreachable msg =>
               fst (api_get serve path token params stream w)
               = Raise (RequestException msg)
           end)
  ∧ (∀ Srv (serve : Srv → Request → Outcome * Srv)
       path token params stream (w : World) resp srv',
       serve (server w) (api_request path token params stream)
       = (Answered resp, srv') →
       retry_status (status_code resp) = false →
       api_get serve path token params stream w
       = (Ok resp,
          {| server := srv';
             trace := trace w
                      ++ [Got (api_request path token params stream)
                            (Answered resp)];
             folder := folder w |}))
  ∧ (let run := api_get scripted "/signatures.json" "tok" None false
                  (initial_world throttled_twice ∅) in
     (status_code <$> (match fst run with Ok resp => Some resp | _ => None end))
     = Some 200
     ∧ sleeps (snd run) = [3 # 2; 6 # 2]%Q
     ∧ length (requests (snd run)) = 3%nat)
  ∧ (let run := api_get scripted "/signatures.json" "tok" None false
                  (initial_world always_500 ∅) in
     fst run = Ok {| status_code := 500; text := "boom"; content := "boom";
                     json_body := None |}
     ∧ sleeps (snd run) = [3 # 2; 6 # 2; 12 # 2; 24 # 2]%Q
     ∧ length (requests (snd run)) = 5%nat)
  ∧ (fst (fetch_signatures_for_year scripted 3 a_day_in_2026 "tok" YEAR
            (initial_world always_500 ∅))
     = Raise (RuntimeError "Failed to list signatures: 500 boom")
     ∧ fst (main scripted 3 a_day_in_2026 (Some "tok")
              (initial_world always_500 ∅))
       = Raise (RuntimeError "Failed to list signatures: 500 boom")
     ∧ folder (snd (main scripted 3 a_day_in_2026 (Some "tok")
                      (initial_world always_500 ∅))) = ∅)
  ∧ (∀ Srv (serve : Srv → Request → Outcome * Srv) fuel today env_token
       (w : World) e w',
       token_ok env_token = true →
       fetch_signatures_for_year serve fuel today (TOKEN env_token) YEAR w
       = (Raise e, w') →
       main serve fuel today env_token w = (Raise e, w')).
Proof.
  split; [exact retry_status_iff|].
  split; [split; [done|exact backoff_at_doubles]|].
  split.
  { intros Srv serve path token params stream w.
    destruct (api_get_spec serve path token params stream w) as (os & o & H).
    exists os, o.
    destruct (api_get serve path token params stream w) as [r w'].
    cbn [fst snd]. by destruct H as (? & _ & ? & ? & ? & ?). }
  split; [intros; by apply api_get_immediate|].
  split; [by vm_compute|]. split; [by vm_compute|].
  split; [by vm_compute|]. intros. by apply main_listing_failure.
Qed.

(** A 404 is handed back after a single request. *)
Lemma api_get_retries_with_backoff_witness :
  fst (api_get scripted "/signatures/s1.json" "tok" None false
         (initial_world [status_only 404 "missing"] ∅))
  = Ok {| status_code := 404; text := "missing"; content := "missing";
          json_body := None |}.
Proof.
  erewrite (proj1 (proj2 (proj2 (proj2 api_get_retries_with_backoff)))
              _ scripted); [reflexivity|reflexivity|reflexivity].
Defined.

(** ** The regular expressions *)

Lemma match_here_plus_cons cls pat a s :
  match_here (Plus cls :: pat) (String a s)
  = if cls a then
      match match_here (Plus cls :: pat) s with
      | Some n => Some (S n)
      | None => S <$> match_here pat s
      end
    else None.
Proof. reflexivity. Qed.

Lemma match_here_sound pat : ∀ s n, match_here pat s = Some n → matches pat s n.
Proof.
  induction pat as [|[c|cls|] pat IH]; intros s n.
  - intros [= <-]. constructor.
  - destruct s as [|a s]; cbn [match_here]; [done|].
    destruct (Ascii.eqb_spec a c) as [->|]; [|done].
    destruct (match_here pat s) as [m|] eqn:E; [|done].
    intros [= <-]. constructor. by apply IH.
  - induction s as [|a s IHs] in n |- *; [done|].
    rewrite match_here_plus_cons. destruct (cls a) eqn:Ha; [|done].
    destruct (match_here (Plus cls :: pat) s) as [m|] eqn:E.
    + intros [= <-]. apply matches_plus_more; [done|]. by apply IHs.
    + destruct (match_here pat s) as [m|] eqn:E2; [|done].
      intros [= <-]. apply matches_plus_last; [done|]. by apply IH.
  - destruct s as [|a [|b s]]; cbn [match_here].
    + intros H. apply matches_eos_end. by apply IH.
    + destruct (Ascii.eqb_spec a "010") as [->|Hne].
      * intros H. apply matches_eos_newline. by apply IH.
      * intros H. exfalso. revert H.
        destruct a as [[] [] [] [] [] [] [] []]; try done.
    + destruct a as [[] [] [] [] [] [] [] []]; done.
Qed.

Lemma match_here_complete pat s n : matches pat s n → is_Some (match_here pat s).
Proof.
  induction 1 as [s|c pat s n _ IH|pat n _ IH|pat n _ IH
                 |cls pat a s n Ha _ IH|cls pat a s n Ha _ IH].
  - by eexists.
  - cbn [match_here]. rewrite Ascii.eqb_refl. destruct IH as [m ->]. by eexists.
  - done.
  - done.
  - rewrite match_here_plus_cons, Ha. destruct IH as [m ->].
    destruct (match_here (Plus cls :: pat) s); by eexists.
  - rewrite match_here_plus_cons, Ha. destruct IH as [m ->]. by eexists.
Qed.

(** A match of a pattern without [$] is a full match of the matched
    text, up to its end. *)
Lemma matches_anchor pat s n :
  matches pat s n → forallb (λ a, negb (is_eos a)) pat = true →
  matches (pat ++ [Eos]) (str_take n s) n.
Proof.
  induction 1 as [s|c pat s n _ IH|pat n _ IH|pat n _ IH
                 |cls pat a s n Ha _ IH|cls pat a s n Ha _ IH];
    cbn [forallb is_eos negb andb app str_take]; try done.
  - intros _. apply matches_eos_end. constructor.
  - intros H. constructor. by apply IH.
  - intros H. apply matches_plus_last; [done|]. by apply IH.
  - intros H. apply matches_plus_more; [done|]. by apply IH.
Qed.

Lemma matches_no_space pat s n :
  matches pat s n → Forall atom_no_space pat →
  Forall (λ c, py_isspace c = false) (chars (str_take n s)).
Proof.
  induction 1 as [s|c pat s n _ IH|pat n _ IH|pat n _ IH
                 |cls pat a s n Ha _ IH|cls pat a s n Ha _ IH];
    intros Hpat; cbn [str_take chars].
  - by destruct s.
  - apply Forall_cons in Hpat as [Hc Hpat]. constructor; [done|by apply IH].
  - apply Forall_cons in Hpat as [_ Hpat]. by apply IH.
  - apply Forall_cons in Hpat as [_ Hpat]. by apply IH.
  - apply Forall_cons in Hpat as [Hc Hpat]. constructor; [by apply Hc|by apply IH].
  - constructor; [|by apply IH]. apply Forall_cons in Hpat as [Hc _]. by apply Hc.
Qed.

(** Every string [findall] returns is a match at some position. *)
Lemma findall_from_elem pat m :
  ∀ s k, m ∈ findall_from k pat s →
         ∃ s' n, match_here pat s' = Some n ∧ m = str_take n s'.
Proof.
  induction s as [|a s IH]; intros k; cbn [findall_from].
  - destruct (match_here pat "") as [n|] eqn:E; [|by intros ?%elem_of_nil].
    intros ->%list_elem_of_singleton. exists "", n. split; [done|]. by destruct n.
  - destruct k as [|k]; [|apply IH].
    destruct (match_here pat (String a s)) as [[|n]|] eqn:E; [..|apply IH].
    + intros [->|?]%elem_of_cons; [|by eapply IH].
      exists (String a s), 0%nat. done.
    + intros [->|?]%elem_of_cons; [|by eapply IH].
      exists (String a s), (S n). done.
Qed.

Lemma lstrip_no_space s :
  Forall (λ c, py_isspace c = false) (chars s) → lstrip s = s.
Proof. destruct s as [|a s]; cbn; [done|]. by intros [-> _]%Forall_cons. Qed.

Lemma rstrip_no_space s :
  Forall (λ c, py_isspace c = false) (chars s) → rstrip s = s.
Proof.
  induction s as [|a s IH]; cbn [chars rstrip]; [done|].
  intros [Ha Hs]%Forall_cons. rewrite (IH Hs), Ha. by destruct s.
Qed.

Lemma strip_no_space s :
  Forall (λ c, py_isspace c = false) (chars s) → strip s = s.
Proof. intros H. unfold strip. rewrite lstrip_no_space by done. by apply rstrip_no_space. Qed.

Lemma email_pattern_no_space : Forall atom_no_space EMAIL_PATTERN.
Proof.
  assert (∀ c, email_char c = true → py_isspace c = false) as H.
  { intros c. unfold email_char. rewrite negb_true_iff, orb_false_iff. tauto. }
  repeat constructor; done.
Qed.

(** What the deep search finds is stripped and passes [add_email]'s test. *)
Lemma findall_email_valid s m :
  m ∈ findall EMAIL_PATTERN s →
  strip m = m ∧ re_match EMAIL_ANCHORED m = true.
Proof.
  intros (s' & n & Hm%match_here_sound & ->)%findall_from_elem. split.
  - apply strip_no_space. eapply matches_no_space; [done|].
    apply email_pattern_no_space.
  - apply bool_decide_eq_true. eapply match_here_complete.
    by apply (matches_anchor EMAIL_PATTERN).
Qed.

(** ** [extract_emails] *)

Lemma add_email_accept e acc :
  add_email e acc = match accept e with Some x => push acc x | None => acc end.
Proof.
  unfold add_email, accept, push. destruct e; try done.
  by destruct (re_match EMAIL_ANCHORED (strip s)).
Qed.

Lemma fold_add_email cands : ∀ acc,
  fold_left (λ acc e, add_email e acc) cands acc
  = fold_left push (omap accept cands) acc.
Proof.
  induction cands as [|e cands IH]; intros acc; [done|].
  cbn [fold_left omap list_omap]. rewrite IH, add_email_accept.
  by destruct (accept e).
Qed.

Lemma filter_filter_absorb (x : string) (acc l : list string) :
  x ∈ acc →
  List.filter (λ y, negb (bool_decide (y ∈ acc)))
    (List.filter (λ y, negb (String.eqb y x)) l)
  = List.filter (λ y, negb (bool_decide (y ∈ acc))) l.
Proof.
  intros Hx. induction l as [|y l IH]; [done|]. cbn [List.filter].
  destruct (String.eqb_spec y x) as [->|Hne]; cbn [negb].
  - rewrite bool_decide_eq_true_2 by done. done.
  - cbn [List.filter]. by rewrite IH.
Qed.

Lemma filter_snoc_absent (x : string) (acc l : list string) :
  List.filter (λ y, negb (bool_decide (y ∈ acc ++ [x]))) l
  = List.filter (λ y, negb (bool_decide (y ∈ acc)))
      (List.filter (λ y, negb (String.eqb y x)) l).
Proof.
  induction l as [|y l IH]; [done|]. cbn [List.filter].
  destruct (String.eqb_spec y x) as [->|Hne]; cbn [negb].
  - rewrite bool_decide_eq_true_2 by (apply elem_of_app; right; by left). done.
  - cbn [List.filter]. rewrite IH.
    destruct (decide (y ∈ acc)) as [Hin|Hnin].
    + rewrite !bool_decide_eq_true_2; [done|done|]. apply elem_of_app. by left.
    + rewrite !bool_decide_eq_false_2; [done|done|].
      rewrite elem_of_app, list_elem_of_singleton. tauto.
Qed.

(** Pushing the elements of [l] one by one onto [acc] adds, in order of
    first occurrence, those that [acc] does not hold. *)
Lemma fold_push l : ∀ acc,
  fold_left push l acc
  = acc ++ List.filter (λ y, negb (bool_decide (y ∈ acc))) (first_seen l).
Proof.
  induction l as [|x l IH]; intros acc; cbn [fold_left first_seen List.filter].
  { by rewrite app_nil_r. }
  rewrite IH. unfold push. destruct (decide (x ∈ acc)) as [Hin|Hnin].
  - rewrite !bool_decide_eq_true_2 by done. cbn [negb].
    by rewrite filter_filter_absorb.
  - rewrite !bool_decide_eq_false_2 by done. cbn [negb].
    rewrite <- app_assoc. cbn [app]. by rewrite filter_snoc_absent.
Qed.

Lemma fold_push_nil l : fold_left push l [] = first_seen l.
Proof.
  rewrite fold_push. cbn [app].
  induction (first_seen l) as [|y r IH]; [done|]. cbn [List.filter].
  rewrite bool_decide_eq_false_2 by apply not_elem_of_nil. cbn. by rewrite IH.
Qed.

Lemma first_seen_elem l x : x ∈ first_seen l ↔ x ∈ l.
Proof.
  induction l as [|y l IH]; [done|]. cbn [first_seen].
  rewrite !elem_of_cons, <- IH, list_elem_of_In, filter_In, <- list_elem_of_In.
  destruct (String.eqb_spec x y) as [->|Hne]; cbn [negb]; [tauto|].
  intuition congruence.
Qed.

Lemma NoDup_list_filter (f : string → bool) l : NoDup l → NoDup (List.filter f l).
Proof.
  induction 1 as [|x l Hx Hl IH]; cbn [List.filter]; [constructor|].
  destruct (f x); [|done]. constructor; [|done].
  rewrite list_elem_of_In, filter_In, <- list_elem_of_In. tauto.
Qed.

Lemma first_seen_NoDup l : NoDup (first_seen l).
Proof.
  induction l as [|y l IH]; cbn [first_seen]; constructor.
  - rewrite list_elem_of_In, filter_In. intros [_ H].
    by rewrite String.eqb_refl in H.
  - by apply NoDup_list_filter.
Qed.

Lemma fold_left_flat_map {A B C} (f : C → B → C) (g : A → list B) l : ∀ acc,
  fold_left f (flat_map g l) acc
  = fold_left (λ acc x, fold_left f (g x) acc) l acc.
Proof.
  induction l as [|x l IH]; intros acc; [done|].
  cbn [flat_map fold_left]. by rewrite fold_left_app, IH.
Qed.

Lemma fold_left_pointwise {A B} (f g : A → B → A) l :
  (∀ acc x, f acc x = g acc x) → ∀ acc, fold_left f l acc = fold_left g l acc.
Proof.
  intros H. induction l as [|x l IH]; intros acc; [done|].
  cbn [fold_left]. by rewrite H, IH.
Qed.

Lemma harvest_item_candidates it acc :
  harvest_item it acc
  = fold_left (λ acc e, add_email e acc) (item_candidates it) acc.
Proof.
  unfold harvest_item, item_candidates. destruct it; try done.
  by destruct (dict_get fields "user").
Qed.

Lemma harvest_from_candidates d acc :
  harvest_from d acc
  = fold_left (λ acc e, add_email e acc) (structured_candidates d) acc.
Proof.
  unfold harvest_from, structured_candidates.
  rewrite fold_left_flat_map. apply fold_left_pointwise. intros acc' key.
  unfold harvest_key. destruct (dict_get d key); try done.
  rewrite fold_left_flat_map. apply fold_left_pointwise. intros acc'' it.
  apply harvest_item_candidates.
Qed.

Lemma harvest_from_scan d :
  harvest_from d [] = structured_scan (JObj d).
Proof.
  by rewrite harvest_from_candidates, fold_add_email, fold_push_nil.
Qed.

Lemma walk_matches o : ∀ acc,
  walk o acc = fold_left (λ acc m, add_email (JStr m) acc) (email_matches o) acc.
Proof.
  induction o as [|b|n|s|items IH|fields IH] using json_induction;
    intros acc; try done.
  - cbn [walk email_matches]. rewrite fold_left_flat_map.
    revert acc. induction IH as [|x l Hx _ IHl]; intros acc; [done|].
    cbn [fold_left]. by rewrite Hx, IHl.
  - cbn [walk email_matches]. rewrite fold_left_flat_map.
    revert acc. induction IH as [|[k v] l Hx _ IHl]; intros acc; [done|].
    cbn [fold_left]. cbn [snd] in Hx. by rewrite Hx, IHl.
Qed.

Lemma email_matches_valid o m :
  m ∈ email_matches o → strip m = m ∧ re_match EMAIL_ANCHORED m = true.
Proof.
  induction o as [|b|n|s|items IH|fields IH] using json_induction;
    cbn [email_matches]; try by intros ?%elem_of_nil.
  - apply findall_email_valid.
  - rewrite list_elem_of_In, in_flat_map. intros (x & Hx & Hm).
    rewrite Forall_forall in IH. apply (IH x); by apply list_elem_of_In.
  - rewrite list_elem_of_In, in_flat_map. intros ([k v] & Hx & Hm).
    rewrite Forall_forall in IH. apply (IH (k, v)); by apply list_elem_of_In.
Qed.

Lemma omap_accept_valid l :
  (∀ m, m ∈ l → strip m = m ∧ re_match EMAIL_ANCHORED m = true) →
  omap accept (map JStr l) = l.
Proof.
  induction l as [|m l IH]; intros H; [done|]. cbn [map omap list_omap accept].
  destruct (H m) as [-> ->]; [by left|]. cbn. f_equal. apply IH.
  intros m' Hm'. apply H. by right.
Qed.

Lemma fold_left_fmap {A B C} (f : C → B → C) (g : A → B) l : ∀ acc,
  fold_left f (map g l) acc = fold_left (λ acc x, f acc (g x)) l acc.
Proof.
  induction l as [|x l IH]; intros acc; [done|]. cbn [map fold_left]. by rewrite IH.
Qed.

Lemma walk_deep o :
  walk o [] = first_seen (email_matches o).
Proof.
  rewrite walk_matches.
  rewrite <- (fold_left_fmap (λ acc e, add_email e acc) JStr).
  rewrite fold_add_email, omap_accept_valid by apply email_matches_valid.
  apply fold_push_nil.
Qed.

Lemma accept_valid e x : accept e = Some x → re_match EMAIL_ANCHORED x = true.
Proof.
  unfold accept. destruct e; try done.
  destruct (re_match EMAIL_ANCHORED (strip s)) eqn:E; [|done]. by intros [= <-].
Qed.

Lemma structured_scan_valid j :
  Forall (λ e, re_match EMAIL_ANCHORED e = true) (structured_scan j).
Proof.
  destruct j; try by constructor. cbn [structured_scan].
  apply Forall_forall. intros x Hx. apply (proj1 (first_seen_elem _ _)) in Hx.
  apply list_elem_of_omap in Hx as (e & _ & He). by eapply accept_valid.
Qed.

Lemma deep_search_valid j :
  Forall (λ e, re_match EMAIL_ANCHORED e = true) (deep_search j).
Proof.
  destruct j; try by constructor. unfold deep_search.
  apply Forall_forall. intros x Hx. apply (proj1 (first_seen_elem _ _)) in Hx.
  by apply email_matches_valid in Hx as [_ ?].
Qed.

Lemma extract_emails_strategies sig_summary sig_detail :
  extract_emails sig_summary sig_detail
  = first_nonempty [structured_scan sig_detail; structured_scan sig_summary;
                    deep_search sig_detail; deep_search sig_summary].
Proof.
  unfold extract_emails.
  assert (Hd : match sig_detail with JObj d => harvest_from d [] | _ => [] end
               = structured_scan sig_detail).
  { destruct sig_detail; try done. apply harvest_from_scan. }
  rewrite Hd. cbn [first_nonempty].
  destruct (structured_scan sig_detail) as [|e1 l1]; [|done].
  assert (Hs : match sig_summary with JObj d => harvest_from d [] | _ => [] end
               = structured_scan sig_summary).
  { destruct sig_summary; try done. apply harvest_from_scan. }
  rewrite Hs.
  destruct (structured_scan sig_summary) as [|e2 l2]; [|done].
  assert (Hwd : (if is_dict sig_detail then walk sig_detail [] else [])
                = deep_search sig_detail).
  { destruct sig_detail; try done. apply walk_deep. }
  rewrite Hwd.
  destruct (deep_search sig_detail) as [|e3 l3]; [|done].
  destruct sig_summary; try done. cbn [is_dict]. rewrite walk_deep.
  unfold deep_search. by destruct (first_seen _).
Qed.

(** C6, as stated, fails: for an entry holding both a direct email and a
    user object's email the script returns both, while the strategy as
    worded (the direct field, else the user's) returns only the first. *)
Lemma extract_emails_takes_both_fields :
  extract_emails JNull signer_with_user = ["a@x.com"; "b@x.com"]
  ∧ spec_extract_emails JNull signer_with_user = ["a@x.com"]
  ∧ extract_emails JNull signer_with_user
    ≠ spec_extract_emails JNull signer_with_user.
Proof. by vm_compute. Qed.

(** C6, amended.  [extract_emails] returns the result of the first
    strategy that finds something, among: the structured scan of the
    detail, the structured scan of the summary, the deep search of the
    detail, the deep search of the summary.  The structured scan takes,
    from every entry of [signers], [recipients] and [participants], the
    entry's [email] field and also the [email] field of its [user] object,
    strips each and keeps those that match the pattern; the deep search
    collects every match of the pattern in the string leaves.  Either
    lists each address once, at its first occurrence; so the result has
    no duplicates and only addresses that match the pattern.  The detail
    with the same signer twice gives that one address. *)
Theorem extract_emails_first_nonempty_strategy (sig_summary sig_detail : json) :
  extract_emails sig_summary sig_detail
  = first_nonempty [structured_scan sig_detail; structured_scan sig_summary;
                    deep_search sig_detail; deep_search sig_summary]
  ∧ NoDup (extract_emails sig_summary sig_detail)
  ∧ Forall (λ e, re_match EMAIL_ANCHORED e = true)
           (extract_emails sig_summary sig_detail)
  ∧ extract_emails sig_summary same_signer_twice = ["a@x.com"].
Proof.
  split; [apply extract_emails_strategies|].
  assert (∀ P : list string → Prop,
            P [] →
            (∀ j, P (structured_scan j)) → (∀ j, P (deep_search j)) →
            P (extract_emails sig_summary sig_detail)) as Hcases.
  { intros P Hnil Hscan Hdeep. rewrite extract_emails_strategies.
    cbn [first_nonempty].
    destruct (structured_scan sig_detail) eqn:E1; [|rewrite <- E1; apply Hscan].
    destruct (structured_scan sig_summary) eqn:E2; [|rewrite <- E2; apply Hscan].
    destruct (deep_search sig_detail) eqn:E3; [|rewrite <- E3; apply Hdeep].
    destruct (deep_search sig_summary) eqn:E4; [done|rewrite <- E4; apply Hdeep]. }
  split; [|split].
  - apply Hcases; [constructor| |].
    + intros [| | | | |d]; try constructor. apply first_seen_NoDup.
    + intros [| | | | |d]; try constructor. apply first_seen_NoDup.
  - apply Hcases; [constructor|apply structured_scan_valid|apply deep_search_valid].
  - rewrite extract_emails_strategies. reflexivity.
Qed.

(** ** The per-document step of [main] *)

Section Document.
Context {Srv : Type} (serve : Srv → Request → Outcome * Srv).

Lemma download_signed_pdf_folder token sig_id doc_id (w : World) :
  folder (snd (download_signed_pdf serve token sig_id doc_id w)) = folder w.
Proof.
  unfold download_signed_pdf, bind.
  pose proof (api_get_folder serve
                ("/signatures/" +:+ py_str sig_id +:+ "/documents/"
                 +:+ py_str doc_id +:+ "/download/signed") token None true w) as H.
  destruct (api_get serve _ token None true w) as [[resp| |] w1]; try done.
  cbn [snd] in H. by destruct (negb (status_code resp =? 200)).
Qed.


Lemma fetch_signature_detail_folder token sig_id (w : World) :
  folder (snd (fetch_signature_detail serve token sig_id w)) = folder w.
Proof.
  unfold fetch_signature_detail, bind.
  pose proof (api_get_folder serve
                ("/signatures/" +:+ py_str sig_id +:+ ".json") token None false w)
    as H.
  destruct (api_get serve _ token None false w) as [[resp| |] w1]; try done.
  cbn [snd] in H. destruct (negb (status_code resp =? 200)); [done|].
  unfold resp_json. by destruct (json_body resp).
Qed.


(** What [process_document] does, case by case: a malformed document
    raises before anything is touched; otherwise the download is tried at
    a name that does not exist, and its result decides the row. *)
Lemma process_document_unfold token sig_id created_at email_used counts doc
    (w : World) :
  process_document serve token sig_id created_at email_used counts doc w =
  match document_names email_used doc with
  | inl e => (Raise e, w)
  | inr (doc_id, original_name, safe_name) =>
      match make_unique_filename (folder w) safe_name with
      | None => (OutOfFuel, w)
      | Some out_name =>
          let row status error :=
            log_row sig_id doc_id email_used original_name
              (path_in_year_folder out_name) created_at status error in
          match download_signed_pdf serve token sig_id doc_id w with
          | (Ok pdf_bytes, w1) =>
              (Ok (count_download counts),
               with_folder w1
                 (append_row (row "downloaded" "")
                    (<[out_name := File [Bytes pdf_bytes]]> (folder w))))
          | (Raise e, w1) =>
              (Ok (count_failure counts),
               with_folder w1 (append_row (row "error" (exn_msg e)) (folder w)))
          | (OutOfFuel, w1) => (OutOfFuel, w1)
          end
      end
  end.
Proof.
  unfold process_document, document_names.
  destruct doc as [| | | | |d]; try done.
  cbn [as_dict]. unfold bind at 1. cbn [ret].
  destruct (py_or (dict_get_or d "file" (JObj [])) (JObj []))
    as [| | | | |file_info]; try done.
  cbn [as_dict]. unfold bind at 1. cbn [ret].
  destruct (safe_name_of email_used _) as [safe_name|]; [|done].
  unfold bind at 1. unfold get_folder at 1.
  destruct (make_unique_filename (folder w) safe_name) as [out_name|] eqn:Hout;
    [|done].
  apply make_unique_filename_least in Hout as [Hfree _]. rewrite Hfree.
  unfold try_except, bind at 1.
  pose proof (download_signed_pdf_folder token sig_id (dict_get d "id") w) as Hf.
  destruct (download_signed_pdf serve token sig_id (dict_get d "id") w)
    as [[pdf_bytes|e|] w1]; cbn [snd] in Hf.
  - unfold bind at 1. unfold write_bytes, bind at 1. unfold get_folder.
    rewrite Hf.
    assert (folder w !! out_name = None) as Hnone.
    { unfold path_exists in Hfree. apply bool_decide_eq_false in Hfree.
      by apply eq_None_not_Some. }
    rewrite Hnone. unfold set_folder, writerow, set_folder, bind, ret.
    cbn [server trace folder]. unfold with_folder. by rewrite Hf.
  - unfold writerow, set_folder, bind, ret. unfold with_folder. by rewrite Hf.
  - done.
Qed.

End Document.

(** ** Names written by [main] hold a dot *)

Lemma rfind_lower c s : -1 ≤ rfind c s.
Proof.
  induction s as [|a s IH]; cbn [rfind]; [lia|].
  destruct (0 <=? rfind c s) eqn:E; [apply Z.leb_le in E; lia|].
  destruct (Ascii.eqb a c); lia.
Qed.




Lemma make_unique_filename_keeps_chars (f : gmap string node) name out c :
  make_unique_filename f name = Some out → c ∈ chars name → c ∈ chars out.
Proof.
  intros [_ [->|(_ & j & _ & -> & _)]]%make_unique_filename_least; [done|].
  rewrite <- (splitext_app name) at 1. unfold numbered.
  rewrite !chars_app, !elem_of_app. tauto.
Qed.


(** ** Composing effects *)






Lemma ledger_append_row row f :
  (∃ data, f !! LOG_NAME = Some (File data)) →
  ledger (append_row row f) = ledger f ++ [CsvRow row].
Proof.
  intros [data H]. unfold ledger, append_row. rewrite H.
  by rewrite lookup_insert_eq.
Qed.

Lemma append_row_other row f name :
  name ≠ LOG_NAME → append_row row f !! name = f !! name.
Proof.
  intros Hne. unfold append_row.
  destruct (f !! LOG_NAME) as [[data|es]|]; by rewrite lookup_insert_ne.
Qed.


Section Loops.
Context {Srv : Type} (serve : Srv → Request → Outcome * Srv).











End Loops.

Section Main.
Context {Srv : Type} (serve : Srv → Request → Outcome * Srv).

Lemma fetch_pages_folder token since until :
  ∀ fuel offset collected (w : World),
    folder (snd (fetch_pages serve fuel token since until offset collected w))
    = folder w.
Proof.
  induction fuel as [|fuel IH]; intros offset collected w; [done|].
  rewrite fetch_pages_step.
  pose proof (api_get_folder serve "/signatures.json" token
                (Some (list_params since until offset)) false w) as H.
  destruct (api_get serve _ token _ false w) as [[resp|e|] w1];
    cbn [snd] in H; try done.
  destruct (negb (status_code resp =? 200)); [done|].
  destruct (json_body resp) as [page|]; [|done].
  destruct (negb (py_truthy page)); [done|].
  destruct (py_iter page) as [items|]; [|done].
  destruct (Z.of_nat (length items) <? PAGE_LIMIT); [done|].
  by rewrite IH.
Qed.

Lemma fetch_signatures_for_year_folder fuel today token year (w : World) :
  folder (snd (fetch_signatures_for_year serve fuel today token year w))
  = folder w.
Proof.
  unfold fetch_signatures_for_year.
  destruct (build_date_range_for_year today year). apply fetch_pages_folder.
Qed.


End Main.



(** ** The [skipped_exists] branch *)

Lemma csv_rows_append_row row f : csv_rows (append_row row f) = csv_rows f ++ [row].
Proof.
  unfold csv_rows, ledger, append_row.
  destruct (f !! LOG_NAME) as [[data|es]|]; rewrite lookup_insert_eq;
    [by rewrite omap_app|done|done].
Qed.

Lemma csv_rows_insert_fresh (f : gmap string node) out pdf :
  f !! out = None → csv_rows (<[out := File [Bytes pdf]]> f) = csv_rows f.
Proof.
  intros Hnone. unfold csv_rows, ledger.
  destruct (decide (out = LOG_NAME)) as [->|Hne].
  - by rewrite lookup_insert_eq, Hnone.
  - by rewrite lookup_insert_ne.
Qed.

Section Skipped.
Context {Srv : Type} (serve : Srv → Request → Outcome * Srv).

Lemma bind_ok {A B} (m : M A) (k : A → M B) (w : @World Srv) b w' :
  bind m k w = (Ok b, w') → ∃ a w1, m w = (Ok a, w1) ∧ k a w1 = (Ok b, w').
Proof.
  unfold bind. destruct (m w) as [[a|e|] w1]; try done. by exists a, w1.
Qed.

Lemma process_document_rows token sig_id created_at email_used counts doc
    (w : World) r w' :
  process_document serve token sig_id created_at email_used counts doc w
  = (r, w') →
  (∀ c, r = Ok c → skipped c = skipped counts)
  ∧ ∃ rows,
      csv_rows (folder w') = csv_rows (folder w) ++ rows
      ∧ (length rows ≤ 1)%nat
      ∧ Forall (λ row, row_status row = Some (JStr "downloaded")
                       ∨ row_status row = Some (JStr "error")) rows.
Proof.
  rewrite process_document_unfold.
  destruct (document_names email_used doc) as [e|[[doc_id original] safe]].
  { intros [= <- <-]. split; [done|]. exists []. rewrite app_nil_r.
    split; [done|]. split; [cbn; lia|constructor]. }
  destruct (make_unique_filename (folder w) safe) as [out|] eqn:Hout.
  2:{ intros [= <- <-]. split; [done|]. exists []. rewrite app_nil_r.
      split; [done|]. split; [cbn; lia|constructor]. }
  apply make_unique_filename_least in Hout as [Hfree _].
  assert (folder w !! out = None) as Hnone.
  { unfold path_exists in Hfree. apply bool_decide_eq_false in Hfree.
    by apply eq_None_not_Some. }
  pose proof (download_signed_pdf_folder serve token sig_id doc_id w) as Hf.
  destruct (download_signed_pdf serve token sig_id doc_id w)
    as [[pdf|e|] w1]; cbn [snd] in Hf; intros [= <- <-].
  - split; [by intros c [= <-]|]. eexists [_]. cbn [with_folder folder].
    rewrite csv_rows_append_row, csv_rows_insert_fresh by done.
    split; [done|]. split; [done|]. constructor; [by left|done].
  - split; [by intros c [= <-]|]. eexists [_]. cbn [with_folder folder].
    rewrite csv_rows_append_row. split; [done|]. split; [done|].
    constructor; [by right|done].
  - split; [done|]. exists []. rewrite app_nil_r, Hf.
    split; [done|]. split; [cbn; lia|constructor].
Qed.

Lemma for_each_skipped {A} (body : Summary → A → M Summary) items :
  (∀ c x (w : @World Srv) c' w',
     body c x w = (Ok c', w') → skipped c' = skipped c) →
  ∀ c w c' w',
    for_each body items c w = (Ok c', w') → skipped c' = skipped c.
Proof.
  intros Hbody. induction items as [|x items IH]; intros c w c' w'.
  { by intros [= <- <-]. }
  cbn [for_each]. intros (c1 & w1 & H1 & H2)%bind_ok.
  apply Hbody in H1. apply IH in H2. congruence.
Qed.

Lemma process_signature_skipped token counts sig (w : World) c' w' :
  process_signature serve token counts sig w = (Ok c', w') →
  skipped c' = skipped counts.
Proof.
  unfold process_signature.
  intros (s & w1 & _ & H)%bind_ok.
  apply bind_ok in H as (detail & w2 & _ & H).
  apply bind_ok in H as (? & w3 & _ & H).
  destruct (py_iter _) as [docs|]; [|done].
  eapply for_each_skipped; [|exact H].
  intros c0 doc0 w0 c1 w0' Hdoc.
  by eapply (process_document_rows _ _ _ _ _ _ _ _ _ Hdoc).
Qed.

Lemma main_skipped fuel today env_token (w : World) c w' :
  main serve fuel today env_token w = (Ok c, w') → skipped c = 0.
Proof.
  unfold main. destruct (_ || _); [done|].
  intros (? & w1 & _ & H)%bind_ok.
  apply bind_ok in H as (sigs & w2 & _ & H).
  apply bind_ok in H as (? & w3 & _ & H).
  unfold process_signatures in H.
  apply (for_each_skipped (process_signature serve (TOKEN env_token)) sigs) in H;
    [done|].
  intros c0 sig0 w0 c0' w0'. apply process_signature_skipped.
Qed.

End Skipped.

(** C2. Whatever the folder and the name, [make_unique_filename] returns
    a name that does not exist in the folder.  Hence the test made right
    after it in [main] is always false: processing a document never
    counts it as skipped and appends at most one row, whose status is
    [downloaded] or [error], never [skipped_exists]; and a run of [main]
    that ends ends with the skipped counter at 0. *)
Theorem skipped_exists_unreachable :
  (∀ (folder : gmap string node) filename,
     ∃ out, make_unique_filename folder filename = Some out
            ∧ path_exists folder out = false)
  ∧ (∀ Srv (serve : Srv → Request → Outcome * Srv) token sig_id created_at
       email_used counts doc (w : World) r w',
       process_document serve token sig_id created_at email_used counts doc w
       = (r, w') →
       (∀ c, r = Ok c → skipped c = skipped counts)
       ∧ ∃ rows,
           csv_rows (folder w') = csv_rows (folder w) ++ rows
           ∧ (length rows ≤ 1)%nat
           ∧ Forall (λ row, row_status row ≠ Some (JStr "skipped_exists")) rows)
  ∧ (∀ Srv (serve : Srv → Request → Outcome * Srv) fuel today env_token
       (w : World) c w',
       main serve fuel today env_token w = (Ok c, w') → skipped c = 0).
Proof.
  split; [exact make_unique_filename_fresh|]. split.
  - intros Srv serve token sig_id created_at email_used counts doc w r w' Hrun.
    apply process_document_rows in Hrun as [Hskip (rows & Hrows & Hlen & Hst)].
    split; [done|]. exists rows. split; [done|]. split; [done|].
    eapply Forall_impl; [exact Hst|]. by intros row [-> | ->].
  - intros. by eapply main_skipped.
Qed.

(** With [report.pdf] already in the folder the name returned is free. *)
Lemma skipped_exists_unreachable_witness :
  ∃ out, make_unique_filename report_folder "report.pdf" = Some out
         ∧ path_exists report_folder out = false.
Proof. apply (proj1 skipped_exists_unreachable report_folder "report.pdf"). Defined.

(** C1 fails on the code.  A second run over the folder a first run left
    (which holds the one expected file) does not skip the document: it
    downloads it again, saves it under the next free name and logs a
    second [downloaded] row; no [skipped_exists] row is written. *)
Theorem rerun_downloads_again :
  fst first_run = Ok {| downloaded := 1; skipped := 0; failures := 0 |}
  ∧ folder (snd first_run) !! "user@example.com_report.pdf"
    = Some (File [Bytes "%PDF-1"])
  ∧ fst second_run = Ok {| downloaded := 1; skipped := 0; failures := 0 |}
  ∧ folder (snd second_run) !! "user@example.com_report_2.pdf"
    = Some (File [Bytes "%PDF-1"])
  ∧ map row_status (csv_rows (folder (snd second_run)))
    = [Some (JStr "status"); Some (JStr "downloaded"); Some (JStr "downloaded")].
Proof. repeat split; vm_compute; reflexivity. Qed.

(** ** The extension test behind an email prefix *)

Lemma matches_plus_split cls pat s n :
  matches (Plus cls :: pat) s n →
  ∃ u s' m, u ≠ [] ∧ chars s = u ++ chars s' ∧ matches pat s' m.
Proof.
  intros H. remember (Plus cls :: pat) as p eqn:Hp.
  induction H as [s|c pat' s n _ IH|pat' n _ IH|pat' n _ IH
                 |cls' pat' a s n Ha Hrest IH|cls' pat' a s n Ha _ IH];
    try discriminate Hp; injection Hp as -> ->.
  - exists [a], s, n. by repeat split.
  - destruct (IH eq_refl) as (u & s' & m & _ & Hs & Hm).
    exists (a :: u), s', m. cbn [chars]. rewrite Hs. by repeat split.
Qed.

Lemma matches_lit_split c pat s n :
  matches (Lit c :: pat) s n → ∃ s' m, s = String c s' ∧ matches pat s' m.
Proof. inversion 1; subst. by eexists _, _. Qed.

(** An address that passes the test of [add_email] has an at sign and,
    somewhere after it, a dot. *)
Lemma valid_email_shape e :
  re_match EMAIL_ANCHORED e = true →
  ∃ u v x, chars e = u ++ "@"%char :: v ++ "."%char :: x.
Proof.
  unfold re_match. rewrite bool_decide_eq_true. intros [n Hn].
  apply match_here_sound in Hn. unfold EMAIL_ANCHORED, EMAIL_PATTERN in Hn.
  cbn [app] in Hn.
  apply matches_plus_split in Hn as (u & s1 & n1 & _ & Hu & Hn).
  apply matches_lit_split in Hn as (s2 & n2 & -> & Hn).
  apply matches_plus_split in Hn as (v & s3 & n3 & _ & Hv & Hn).
  apply matches_lit_split in Hn as (s4 & n4 & -> & _).
  exists u, v, (chars s4). rewrite Hu. cbn [chars]. by rewrite Hv.
Qed.

Lemma filter_split {A} (f : A → bool) l a x b :
  List.filter f l = a ++ x :: b →
  ∃ a' b', l = a' ++ x :: b' ∧ List.filter f b' = b.
Proof.
  revert a. induction l as [|y l IH]; intros a; cbn [List.filter].
  { by destruct a. }
  destruct (f y) eqn:Hy.
  - destruct a as [|z a]; cbn [app].
    + intros [= -> H]. by exists [], l.
    + intros [= -> H]. apply IH in H as (a' & b' & -> & Hb).
      by exists (z :: a'), b'.
  - intros H. apply IH in H as (a' & b' & -> & Hb). by exists (y :: a'), b'.
Qed.

Lemma rfind_absent c s : c ∉ chars s → rfind c s = -1.
Proof.
  induction s as [|a s IH]; cbn [rfind chars]; [done|].
  intros [Hne Hs]%not_elem_of_cons. rewrite (IH Hs). cbn.
  destruct (Ascii.eqb_spec a c); [by subst|done].
Qed.

Lemma rfind_upper c s : rfind c s < Z.of_nat (String.length s).
Proof.
  induction s as [|a s IH]; cbn [rfind String.length]; [lia|].
  destruct (0 <=? rfind c s); [lia|]. destruct (Ascii.eqb a c); lia.
Qed.

Lemma rfind_at_least c s p q :
  chars s = p ++ c :: q → Z.of_nat (length p) ≤ rfind c s.
Proof.
  revert s. induction p as [|a p IH]; intros [|b s]; cbn [chars app];
    try done.
  - intros [= -> _]. cbn [rfind length].
    pose proof (rfind_lower c s). destruct (0 <=? rfind c s) eqn:E.
    + apply Z.leb_le in E. lia.
    + rewrite Ascii.eqb_refl. lia.
  - intros [= -> H]. apply IH in H. cbn [rfind length].
    destruct (0 <=? rfind c s) eqn:E; [lia|]. apply Z.leb_gt in E. lia.
Qed.

Lemma chars_str_take n s : chars (str_take n s) = take n (chars s).
Proof.
  revert s. induction n as [|n IH]; intros [|a s]; cbn [str_take chars take];
    try done. by rewrite IH.
Qed.

Lemma str_drop_truthy n s :
  (n < String.length s)%nat → str_truthy (str_drop n s) = true.
Proof.
  revert s. induction n as [|n IH]; intros [|a s]; cbn [str_drop String.length];
    try lia; [done|]. intros H. apply IH. lia.
Qed.

(** A name without slash in which a dot comes after another character
    that is no dot has an extension. *)
Lemma splitext_has_extension s p q r (x : ascii) :
  "/"%char ∉ chars s → x ≠ "."%char →
  chars s = p ++ x :: q ++ "."%char :: r →
  str_truthy (snd (splitext s)) = true.
Proof.
  intros Hslash Hx Hs. unfold splitext.
  rewrite (rfind_absent "/" s Hslash).
  assert (Z.of_nat (length p + 1 + length q) ≤ rfind "." s) as Hdot.
  { pose proof (rfind_at_least "." s (p ++ x :: q) r) as H.
    rewrite length_app in H. cbn [length] in H.
    rewrite Hs, <- app_assoc in H. specialize (H eq_refl). lia. }
  pose proof (rfind_upper "." s) as Hup.
  assert ((-1 <? rfind "." s) = true) as -> by (apply Z.ltb_lt; lia).
  assert (has_other_between "." (-1 + 1) (rfind "." s) s = true) as ->.
  { unfold has_other_between.
    change (Z.to_nat (-1 + 1)) with 0%nat. change (-1 + 1) with 0.
    assert (str_drop 0 s = s) as -> by by destruct s.
    rewrite Z.sub_0_r, chars_str_take, Hs. apply existsb_exists. exists x.
    split.
    - apply list_elem_of_In.
      apply (list_elem_of_lookup_2 _ (length p)).
      rewrite lookup_take_lt by lia.
      by rewrite lookup_app_r, Nat.sub_diag by lia.
    - apply negb_true_iff. by apply Ascii.eqb_neq. }
  cbn [andb snd]. apply str_drop_truthy. lia.
Qed.

Lemma join_head sep e rest : ∃ tail, join sep (e :: rest) = e +:+ tail.
Proof.
  destruct rest as [|e2 rest]; cbn [join].
  - exists "". by rewrite str_app_nil_r.
  - by eexists.
Qed.

(** With at least one valid address in front, the sanitized name always
    has an extension in the sense of [splitext], so [.pdf] is never
    appended. *)
Lemma ensure_extension_idle_after_email emails name :
  emails ≠ [] →
  Forall (λ e, re_match EMAIL_ANCHORED e = true) emails →
  safe_name_of (email_used_of emails) (JStr name)
  = Some (sanitize_filename (join "+" emails +:+ "_" +:+ name)).
Proof.
  intros Hne Hvalid. destruct emails as [|e rest]; [done|]. clear Hne.
  apply Forall_cons in Hvalid as [He _].
  destruct (valid_email_shape e He) as (u & v & x & Hshape).
  destruct (join_head "+" e rest) as [tail Htail].
  unfold email_used_of. set (prefix := join "+" (e :: rest)) in *.
  assert (chars (prefix +:+ "_" +:+ name)
          = u ++ "@"%char :: v ++ "."%char :: (x ++ chars (tail +:+ "_" +:+ name)))
    as Hall.
  { rewrite Htail, str_app_assoc, chars_app, Hshape, <- !app_assoc. cbn [app].
    by rewrite <- app_assoc. }
  assert (str_truthy prefix = true) as Hprefix.
  { rewrite Htail. destruct e; [by destruct u|done]. }
  unfold safe_name_of, base_name_of. rewrite Hprefix. cbn [py_str].
  f_equal. unfold ensure_extension.
  set (s := sanitize_filename (prefix +:+ "_" +:+ name)).
  assert (str_truthy (snd (splitext s)) = true) as ->; [|done].
  assert (Hvis : List.filter visible (chars s)
                 = map underscore_forbidden
                     (List.filter visible (chars (prefix +:+ "_" +:+ name)))).
  { apply sanitize_filename_visible. rewrite Hall. intros Hsp.
    apply Forall_app in Hsp as [_ Hsp]. by apply Forall_cons in Hsp as [? _]. }
  rewrite Hall, List.filter_app in Hvis. cbn [List.filter] in Hvis.
  change (visible "@") with true in Hvis. cbn iota in Hvis.
  rewrite List.filter_app in Hvis. cbn [List.filter] in Hvis.
  change (visible ".") with true in Hvis. cbn iota in Hvis.
  rewrite map_app in Hvis. cbn [map] in Hvis.
  rewrite map_app in Hvis. cbn [map] in Hvis.
  change (underscore_forbidden "@") with "@"%char in Hvis.
  change (underscore_forbidden ".") with "."%char in Hvis.
  apply filter_split in Hvis as (p & rest1 & Hs & Hrest).
  apply filter_split in Hrest as (q & r & -> & _).
  apply (splitext_has_extension s p q r "@"); [|done|done].
  pose proof (sanitize_filename_forbidden_free (prefix +:+ "_" +:+ name)) as Hf.
  fold s in Hf. rewrite Forall_forall in Hf. intros Hin%Hf. done.
Qed.

(** C8 fails on the code.  With an email prefix the extension test sees
    the dot of the email's domain: a document named [contract] is saved
    as [user@example.com_contract], without [.pdf] (without a prefix it
    becomes [contract.pdf]), and the copy that gets a counter is saved as
    [user@example_2.com_contract].  This is no accident of the example:
    whenever at least one address was found, the name is the sanitized
    base name as it stands, and [.pdf] is never appended. *)
Theorem pdf_extension_lost_behind_email_prefix :
  safe_name_of (email_used_of ["user@example.com"]) (JStr "contract")
  = Some "user@example.com_contract"
  ∧ splitext "user@example.com_contract" = ("user@example", ".com_contract")
  ∧ safe_name_of (email_used_of []) (JStr "contract") = Some "contract.pdf"
  ∧ fst two_contracts_run = Ok {| downloaded := 2; skipped := 0; failures := 0 |}
  ∧ dom (folder (snd two_contracts_run))
    = {[ LOG_NAME; "user@example.com_contract"; "user@example_2.com_contract" ]}
  ∧ (∀ emails name,
       emails ≠ [] →
       Forall (λ e, re_match EMAIL_ANCHORED e = true) emails →
       safe_name_of (email_used_of emails) (JStr name)
       = Some (sanitize_filename (join "+" emails +:+ "_" +:+ name))).
Proof.
  repeat split; try (vm_compute; reflexivity).
  apply ensure_extension_idle_after_email.
Qed.

(** * Further properties of the code *)

(** ** Slices of a concatenation *)

Lemma str_length_app s1 s2 :
  String.length (s1 +:+ s2) = (String.length s1 + String.length s2)%nat.
Proof.
  induction s1 as [|c s1 IH]; [done|].
  rewrite str_app_cons. cbn [String.length]. by rewrite IH.
Qed.

Lemma str_take_app s1 s2 : str_take (String.length s1) (s1 +:+ s2) = s1.
Proof.
  induction s1 as [|c s1 IH]; [by destruct s2|].
  rewrite str_app_cons. cbn [String.length str_take]. by rewrite IH.
Qed.

Lemma str_drop_app s1 s2 : str_drop (String.length s1) (s1 +:+ s2) = s2.
Proof.
  induction s1 as [|c s1 IH]; [by destruct s2|].
  rewrite str_app_cons. cbn [String.length str_drop]. by rewrite IH.
Qed.

Lemma str_take_length n s : (String.length (str_take n s) ≤ n)%nat.
Proof.
  revert s. induction n as [|n IH]; intros [|c s]; cbn; try lia.
  specialize (IH s). lia.
Qed.

Lemma str_drop_length n s :
  String.length (str_drop n s) = (String.length s - n)%nat.
Proof.
  revert s. induction n as [|n IH]; intros [|c s]; cbn; try lia. apply IH.
Qed.

(** ** [mask_token] *)

(** X1. Of a token of more than 12 characters [mask_token] shows the
    first six and the last four characters with three dots in between:
    whatever lies between them (at least three characters) leaves no
    trace in the output. *)
Theorem mask_token_hides_middle (first middle last : string) :
  String.length first = 6%nat →
  String.length last = 4%nat →
  (3 ≤ String.length middle)%nat →
  mask_token (first +:+ middle +:+ last) = first +:+ "..." +:+ last.
Proof.
  intros Hf Hl Hm. unfold mask_token.
  assert (Hlen : String.length (first +:+ middle +:+ last)
                 = (10 + String.length middle)%nat).
  { rewrite !str_length_app. lia. }
  assert (str_truthy (first +:+ middle +:+ last) = true) as ->.
  { by destruct (first +:+ middle +:+ last). }
  cbn [negb].
  destruct (Nat.leb_spec (String.length (first +:+ middle +:+ last)) 12);
    [lia|].
  f_equal.
  - rewrite <- Hf. apply str_take_app.
  - f_equal.
    replace (String.length (first +:+ middle +:+ last) - 4)%nat
      with (String.length (first +:+ middle)).
    + rewrite <- str_app_assoc. apply str_drop_app.
    + rewrite Hlen, str_length_app. lia.
Qed.

Lemma mask_token_hides_middle_witness :
  mask_token "abcdefSECRETSECRETwxyz" = "abcdef...wxyz".
Proof.
  apply (mask_token_hides_middle "abcdef" "SECRETSECRET" "wxyz");
    [reflexivity|reflexivity|cbn; lia].
Defined.

(** X2. The output of [mask_token] never has more than 13 characters,
    and a token of 1 to 12 characters is returned as it is, unmasked. *)
Theorem mask_token_short_unmasked (token : string) :
  (String.length (mask_token token) ≤ 13)%nat
  ∧ ((1 ≤ String.length token ≤ 12)%nat → mask_token token = token)
  ∧ mask_token "" = "<empty>".
Proof.
  split; [|split; [|done]].
  - unfold mask_token. destruct token as [|c t]; [cbn; lia|].
    cbn [str_truthy negb].
    destruct (Nat.leb_spec (String.length (String c t)) 12); [lia|].
    rewrite !str_length_app, str_drop_length.
    pose proof (str_take_length 6 (String c t)). cbn [String.length] in *. lia.
  - intros [H1 H2]. unfold mask_token. destruct token as [|c t]; [cbn in H1; lia|].
    cbn [str_truthy negb].
    by destruct (Nat.leb_spec (String.length (String c t)) 12); [|lia].
Qed.

(** ** [sanitize_filename] on names that are already clean *)

Lemma spaced_true_false s : spaced true s → spaced false s.
Proof. destruct s as [|c s]; [done|]. cbn. intros [_ H]. by split. Qed.

Lemma replace_forbidden_clean s :
  Forall (λ c, forbidden_char c = false) (chars s) → replace_forbidden s = s.
Proof.
  unfold replace_forbidden.
  induction s as [|c s IH]; [done|].
  cbn [chars str_map]. intros [Hc Hs]%Forall_cons. by rewrite Hc, IH.
Qed.

Lemma collapse_ws_from_clean b s :
  spaced b s →
  (∀ c, c ∈ chars s → py_isspace c = true → c = " "%char) →
  collapse_ws_from b s = s.
Proof.
  revert b. induction s as [|c s IH]; intros b; [done|].
  cbn [spaced collapse_ws_from chars]. intros [Hb Hs] Hsp.
  assert (Hrest : ∀ c', c' ∈ chars s → py_isspace c' = true → c' = " "%char).
  { intros c' Hc'. apply Hsp. by right. }
  destruct (py_isspace c) eqn:Hc.
  - rewrite (Hb eq_refl). rewrite (Hsp c); [|by left|done].
    f_equal. by apply IH.
  - f_equal. by apply IH.
Qed.

Lemma lstrip_clean s : spaced true s → lstrip s = s.
Proof.
  destruct s as [|c s]; [done|]. cbn. intros [Hc _].
  destruct (py_isspace c); [|done]. by specialize (Hc eq_refl).
Qed.

Lemma rstrip_clean s :
  (∀ c, last_char s = Some c → py_isspace c = false) → rstrip s = s.
Proof.
  unfold last_char.
  induction s as [|c s IH]; [done|].
  cbn [chars rstrip]. intros Hl.
  destruct s as [|c' s].
  - cbn. by rewrite (Hl c).
  - rewrite IH; [done|]. intros x Hx. apply Hl. by cbn [chars last] in *.
Qed.

Lemma clean_name_fixed s : clean_name s → sanitize_filename s = s.
Proof.
  intros (Hne & Hf & Hsp & Hs & Hl). unfold sanitize_filename.
  rewrite replace_forbidden_clean by done.
  unfold collapse_ws. rewrite collapse_ws_from_clean;
    [|by apply spaced_true_false|done].
  unfold strip. rewrite lstrip_clean by done. rewrite rstrip_clean by done.
  by destruct s.
Qed.

Lemma sanitize_filename_clean name : clean_name (sanitize_filename name).
Proof.
  assert (Hsp : spaced true (strip (collapse_ws (replace_forbidden name)))).
  { unfold strip. apply rstrip_spaced. eapply lstrip_spaced.
    apply (collapse_ws_from_spaced false). }
  assert (Hdef : clean_name DEFAULT_NAME).
  { split; [done|]. split; [by vm_compute; repeat constructor|].
    split.
    { intros c Hc Hs. exfalso. revert Hs.
      cbn in Hc. repeat (apply elem_of_cons in Hc as [->|Hc]; [done|]).
      by apply elem_of_nil in Hc. }
    split; [vm_compute; by repeat split|].
    cbn. by intros c [= <-]. }
  pose proof (sanitize_filename_forbidden_free name) as Hfree.
  unfold sanitize_filename in *. destruct (str_truthy _) eqn:Ht; [|done].
  split; [intros H; by rewrite H in Ht|].
  split; [done|].
  split; [intros c [->|[_ Hc]]%sanitize_core_elem; [done|congruence]|].
  split; [done|].
  intros c. unfold strip. apply rstrip_last.
Qed.

(** X3. [sanitize_filename] is idempotent: sanitizing a sanitized name
    changes nothing. *)
Theorem sanitize_filename_idempotent (name : string) :
  sanitize_filename (sanitize_filename name) = sanitize_filename name.
Proof. apply clean_name_fixed, sanitize_filename_clean. Qed.

(** X4. The names [sanitize_filename] returns unchanged are exactly the
    clean ones: not empty, without a forbidden character, with no white
    space but single spaces between other characters. *)
Theorem sanitize_filename_fixed_points (name : string) :
  sanitize_filename name = name ↔ clean_name name.
Proof.
  split; [|apply clean_name_fixed].
  intros <-. apply sanitize_filename_clean.
Qed.

(** ** Decimal numerals *)

Lemma pretty_N_go_digits x : ∀ s,
  Forall (λ c, digit c = true) (chars s) →
  Forall (λ c, digit c = true) (chars (pretty_N_go x s)).
Proof.
  induction (N.lt_wf_0 x) as [x _ IH]; intros s Hs.
  assert (x = 0 ∨ 0 < x)%N as [->|?] by lia.
  - by rewrite pretty_N_go_0.
  - rewrite pretty_N_go_step by done. apply IH; [by apply N.div_lt|].
    cbn [chars]. apply Forall_cons. split; [|done].
    unfold pretty_N_char. by repeat case_match.
Qed.

Lemma pretty_nat_digits (n : nat) :
  Forall (λ c, digit c = true) (chars (pretty n)).
Proof.
  unfold pretty, pretty_nat, pretty, pretty_N. case_decide.
  - by repeat constructor.
  - by apply pretty_N_go_digits.
Qed.

Lemma digit_plain c :
  digit c = true →
  forbidden_char c = false ∧ c ≠ "."%char ∧ c ≠ "/"%char.
Proof.
  unfold digit. cbn [chars existsb]. rewrite !orb_true_iff.
  intros H. repeat destruct H as [H|H]; try done;
    apply Ascii.eqb_eq in H; by subst.
Qed.

(** ** [rfind] and slices *)

Lemma rfind_app c s1 s2 :
  rfind c (s1 +:+ s2)
  = if 0 <=? rfind c s2 then Z.of_nat (String.length s1) + rfind c s2
    else rfind c s1.
Proof.
  induction s1 as [|a s1 IH].
  - change ("" +:+ s2) with s2. pose proof (rfind_lower c s2).
    destruct (Z.leb_spec 0 (rfind c s2)); cbn; lia.
  - rewrite str_app_cons. cbn [rfind String.length]. rewrite IH.
    pose proof (rfind_lower c s2).
    destruct (Z.leb_spec 0 (rfind c s2)); [|done].
    destruct (Z.leb_spec 0 (Z.of_nat (String.length s1) + rfind c s2)); lia.
Qed.

Lemma rfind_drop c s :
  0 ≤ rfind c s → rfind c (str_drop (Z.to_nat (rfind c s)) s) = 0.
Proof.
  induction s as [|a s IH]; [done|].
  cbn [rfind]. destruct (Z.leb_spec 0 (rfind c s)) as [Hr|Hr].
  - intros _. replace (Z.to_nat (rfind c s + 1)) with (S (Z.to_nat (rfind c s)))
      by lia.
    cbn [str_drop]. by apply IH.
  - destruct (Ascii.eqb a c) eqn:Hac; [|lia]. intros _.
    change (Z.to_nat 0) with 0%nat. cbn [str_drop rfind].
    destruct (Z.leb_spec 0 (rfind c s)); [lia|]. by rewrite Hac.
Qed.

Lemma str_take_app_le n s1 s2 :
  (n ≤ String.length s1)%nat → str_take n (s1 +:+ s2) = str_take n s1.
Proof.
  revert s1. induction n as [|n IH]; intros [|a s1] Hn; cbn in Hn; try lia.
  - by destruct s2.
  - done.
  - rewrite str_app_cons. cbn [str_take]. rewrite IH; [done|lia].
Qed.

Lemma str_take_elem n s c : c ∈ chars (str_take n s) → c ∈ chars s.
Proof.
  revert s. induction n as [|n IH]; intros [|a s]; cbn [str_take chars];
    try by intros ?%elem_of_nil.
  intros [->|H]%elem_of_cons; [by left|]. right. by apply IH.
Qed.

Lemma str_drop_elem n s c : c ∈ chars (str_drop n s) → c ∈ chars s.
Proof.
  revert s. induction n as [|n IH]; intros [|a s]; cbn [str_drop chars];
    try done.
  intros H. right. by apply IH.
Qed.

(** ** [os.path.splitext] on names without a slash *)

Lemma splitext_plain p :
  "/"%char ∉ chars p →
  splitext p
  = if (0 <=? rfind "." p)
       && existsb not_dot (chars (str_take (Z.to_nat (rfind "." p)) p))
    then (str_take (Z.to_nat (rfind "." p)) p,
          str_drop (Z.to_nat (rfind "." p)) p)
    else (p, "").
Proof.
  intros Hs. unfold splitext, has_other_between.
  rewrite (rfind_absent "/" p) by done.
  change (Z.to_nat (-1 + 1)) with 0%nat. cbn [str_drop].
  replace (rfind "." p - (-1 + 1)) with (rfind "." p) by lia.
  replace (-1 <? rfind "." p) with (0 <=? rfind "." p); [done|].
  destruct (Z.leb_spec 0 (rfind "." p)), (Z.ltb_spec (-1) (rfind "." p)); lia.
Qed.

Lemma existsb_not_dot l :
  existsb not_dot l = true ↔ ∃ c, c ∈ l ∧ c ≠ "."%char.
Proof.
  rewrite existsb_exists. split; intros (c & Hc & Hd); exists c.
  - split; [by apply list_elem_of_In|].
    intros ->. by vm_compute in Hd.
  - split; [by apply list_elem_of_In|].
    unfold not_dot. apply negb_true_iff. by apply Ascii.eqb_neq.
Qed.

(** A name with some character other than dots, followed by an
    extension that starts with its only dot, splits at that dot. *)
Lemma splitext_stem_ext stem ext :
  "/"%char ∉ chars stem → "/"%char ∉ chars ext →
  (∃ c, c ∈ chars stem ∧ c ≠ "."%char) →
  rfind "." ext = 0 →
  splitext (stem +:+ ext) = (stem, ext).
Proof.
  intros Hs1 Hs2 Hc Hr. rewrite splitext_plain.
  2:{ rewrite chars_app, elem_of_app. tauto. }
  rewrite rfind_app, Hr. cbn [Z.leb Z.compare].
  replace (Z.to_nat (Z.of_nat (String.length stem) + 0))
    with (String.length stem) by lia.
  rewrite str_take_app, str_drop_app.
  replace (0 <=? Z.of_nat (String.length stem) + 0) with true
    by (symmetry; apply Z.leb_le; lia).
  by rewrite (proj2 (existsb_not_dot _) Hc).
Qed.

(** A suffix without dot or slash, added to a name that has no
    extension, gives a name that has none. *)
Lemma splitext_no_ext_suffix p suffix :
  "/"%char ∉ chars p → "/"%char ∉ chars suffix → "."%char ∉ chars suffix →
  snd (splitext p) = "" →
  splitext (p +:+ suffix) = (p +:+ suffix, "").
Proof.
  intros Hs1 Hs2 Hd Hext. rewrite splitext_plain in Hext by done.
  rewrite splitext_plain.
  2:{ rewrite chars_app, elem_of_app. tauto. }
  rewrite rfind_app, (rfind_absent "." suffix) by done.
  cbn [Z.leb Z.compare].
  pose proof (rfind_upper "." p) as Hup.
  destruct (Z.leb_spec 0 (rfind "." p)) as [Hr|Hr]; [|done].
  rewrite str_take_app_le by lia. cbn [andb] in *.
  destruct (existsb not_dot _); [|done].
  cbn [snd] in Hext.
  assert (str_truthy (str_drop (Z.to_nat (rfind "." p)) p) = true) as Ht.
  { apply str_drop_truthy. lia. }
  by rewrite Hext in Ht.
Qed.

Lemma splitext_ext_dot p :
  "/"%char ∉ chars p → snd (splitext p) ≠ "" →
  rfind "." (snd (splitext p)) = 0
  ∧ ∃ c, c ∈ chars (fst (splitext p)) ∧ c ≠ "."%char.
Proof.
  intros Hs. rewrite splitext_plain by done.
  destruct (Z.leb_spec 0 (rfind "." p)) as [Hr|Hr]; [|done].
  cbn [andb]. destruct (existsb not_dot _) eqn:He; [|done].
  cbn [fst snd]. intros _. split; [by apply rfind_drop|].
  by apply existsb_not_dot.
Qed.

Lemma splitext_parts_no_slash p :
  "/"%char ∉ chars p →
  ("/"%char ∉ chars (fst (splitext p)))
  ∧ ("/"%char ∉ chars (snd (splitext p))).
Proof.
  intros Hs. rewrite <- (splitext_app p), chars_app, elem_of_app in Hs. tauto.
Qed.

Lemma underscore_number_plain (j : nat) c :
  c ∈ chars ("_" +:+ pretty j) →
  forbidden_char c = false ∧ c ≠ "."%char ∧ c ≠ "/"%char.
Proof.
  rewrite str_app_cons. cbn [chars]. intros [->|Hc]%elem_of_cons; [done|].
  apply digit_plain. pose proof (pretty_nat_digits j) as Hd.
  rewrite Forall_forall in Hd. by apply Hd.
Qed.

Lemma splitext_numbered filename (j : nat) :
  "/"%char ∉ chars filename →
  splitext (numbered (fst (splitext filename)) (snd (splitext filename)) j)
  = (fst (splitext filename) +:+ "_" +:+ pretty j, snd (splitext filename)).
Proof.
  intros Hs. unfold numbered.
  destruct (splitext_parts_no_slash filename Hs) as [Hs1 Hs2].
  assert (Hsuf : ("/"%char ∉ chars ("_" +:+ pretty j))
                 ∧ ("."%char ∉ chars ("_" +:+ pretty j))).
  { split; intros H%underscore_number_plain; tauto. }
  destruct Hsuf as [Hsuf1 Hsuf2].
  destruct (decide (snd (splitext filename) = "")) as [He|He].
  - rewrite He, str_app_nil_r.
    assert (fst (splitext filename) = filename) as Hf.
    { pose proof (splitext_app filename) as H. by rewrite He, str_app_nil_r in H. }
    rewrite Hf. by apply splitext_no_ext_suffix.
  - destruct (splitext_ext_dot filename Hs He) as [Hr (c & Hc & Hcd)].
    replace ((splitext filename).1 +:+ "_" +:+ pretty j +:+ (splitext filename).2)
      with (((splitext filename).1 +:+ "_" +:+ pretty j) +:+ (splitext filename).2)
      by (by rewrite !str_app_assoc).
    apply splitext_stem_ext; [|done| |done].
    + rewrite chars_app, elem_of_app. tauto.
    + exists c. split; [|done].
      rewrite chars_app, elem_of_app. tauto.
Qed.

(** ** The extension [main] appends *)

Lemma ensure_extension_not_dot s :
  ∃ c, c ∈ chars (ensure_extension s) ∧ c ≠ "."%char.
Proof.
  unfold ensure_extension.
  destruct (str_truthy (snd (splitext s))) eqn:Ht.
  - unfold splitext, has_other_between in Ht.
    destruct (_ <? _); [|done]. cbn [andb] in Ht.
    destruct (existsb _ _) eqn:He; [|done].
    apply existsb_exists in He as (c & Hc%list_elem_of_In & Hd).
    exists c. split.
    + by apply str_take_elem, str_drop_elem in Hc.
    + intros ->. by vm_compute in Hd.
  - exists "p"%char. split; [|done].
    rewrite chars_app, elem_of_app. right. cbn [chars].
    by right; left.
Qed.

(** X5. On a name without a slash that has some character other than a
    dot, appending [.pdf] gives a name that splits into that name and the
    extension [.pdf]; so, on such a name, after the test of lines 273-274
    the name has an extension, and running the test again changes
    nothing. *)
Theorem ensure_extension_gives_extension (safe_name : string) :
  "/"%char ∉ chars safe_name →
  (∃ c, c ∈ chars safe_name ∧ c ≠ "."%char) →
  splitext (safe_name +:+ ".pdf") = (safe_name, ".pdf")
  ∧ str_truthy (snd (splitext (ensure_extension safe_name))) = true
  ∧ ensure_extension (ensure_extension safe_name) = ensure_extension safe_name.
Proof.
  intros Hs Hc.
  assert (H1 : splitext (safe_name +:+ ".pdf") = (safe_name, ".pdf")).
  { apply splitext_stem_ext; try done. by vm_compute; intros H; inversion H;
      subst; repeat match goal with H : _ ∈ _ |- _ => inversion H; clear H; subst end. }
  assert (H2 : str_truthy (snd (splitext (ensure_extension safe_name))) = true).
  { unfold ensure_extension.
    destruct (str_truthy (snd (splitext safe_name))) eqn:Ht; [done|].
    by rewrite H1. }
  split; [done|]. split; [done|].
  unfold ensure_extension at 1. by rewrite H2.
Qed.

Lemma ensure_extension_gives_extension_witness :
  splitext ("contract" +:+ ".pdf") = ("contract", ".pdf")
  ∧ str_truthy (snd (splitext (ensure_extension "contract"))) = true
  ∧ ensure_extension (ensure_extension "contract") = ensure_extension "contract".
Proof.
  apply (ensure_extension_gives_extension "contract").
  - vm_compute. intros H.
    repeat (apply elem_of_cons in H as [H|H]; [discriminate H|]).
    by apply elem_of_nil in H.
  - exists "c"%char. split; [by left|done].
Defined.

(** ** [make_unique_filename] *)


(** X7. On a name without a slash (such are the names [main] passes, as
    they went through [sanitize_filename]) the name returned by
    [make_unique_filename] has the extension of the name it was given:
    the counter goes before the extension. *)
Theorem make_unique_filename_keeps_extension (folder : gmap string node)
    (filename out : string) :
  "/"%char ∉ chars filename →
  make_unique_filename folder filename = Some out →
  snd (splitext out) = snd (splitext filename).
Proof.
  intros Hs Hout.
  destruct (make_unique_filename_least folder filename out Hout)
    as [_ [->|(_ & j & _ & -> & _)]]; [done|].
  by rewrite splitext_numbered.
Qed.

Lemma make_unique_filename_keeps_extension_witness :
  snd (splitext "report_2.pdf") = snd (splitext "report.pdf").
Proof.
  apply (make_unique_filename_keeps_extension report_folder "report.pdf").
  - vm_compute. intros H.
    repeat (apply elem_of_cons in H as [H|H]; [discriminate H|]).
    by apply elem_of_nil in H.
  - reflexivity.
Defined.

(** ** The name a document is saved under *)

Lemma safe_name_of_forbidden_free email_used original safe_name :
  safe_name_of email_used original = Some safe_name →
  Forall (λ c, forbidden_char c = false) (chars safe_name).
Proof.
  unfold safe_name_of. destruct (base_name_of _ _) as [| | |base| |]; try done.
  intros [= <-]. unfold ensure_extension.
  destruct (str_truthy _); [apply sanitize_filename_forbidden_free|].
  rewrite chars_app. apply Forall_app. split;
    [apply sanitize_filename_forbidden_free|by repeat constructor].
Qed.

Lemma make_unique_filename_forbidden_free (folder : gmap string node)
    filename out :
  Forall (λ c, forbidden_char c = false) (chars filename) →
  make_unique_filename folder filename = Some out →
  Forall (λ c, forbidden_char c = false) (chars out).
Proof.
  intros Hf Hout.
  destruct (make_unique_filename_least folder filename out Hout)
    as [_ [->|(_ & j & _ & -> & _)]]; [done|].
  rewrite <- (splitext_app filename), chars_app in Hf.
  apply Forall_app in Hf as [Hstem Hext].
  unfold numbered. rewrite chars_app. apply Forall_app. split; [done|].
  rewrite <- str_app_assoc, chars_app. apply Forall_app. split; [|done].
  apply Forall_forall. intros c Hc.
  by destruct (underscore_number_plain j c Hc).
Qed.

(** X8. The name a document is saved under holds none of the characters
    [sanitize_filename] replaces (so neither a slash nor a backslash),
    and it is neither empty nor one of the names [.] and [..]: whatever
    the API sends as file name and signer address, the file is an entry
    of the year's folder itself. *)
Theorem saved_name_is_plain_entry (folder : gmap string node)
    (email_used : string) (original_name : json) (safe_name out : string) :
  safe_name_of email_used original_name = Some safe_name →
  make_unique_filename folder safe_name = Some out →
  Forall (λ c, forbidden_char c = false) (chars out)
  ∧ out ≠ "" ∧ out ≠ "." ∧ out ≠ "..".
Proof.
  intros Hsafe Hout. split.
  { eapply make_unique_filename_forbidden_free; [|done].
    by eapply safe_name_of_forbidden_free. }
  assert (∃ c, c ∈ chars out ∧ c ≠ "."%char) as (c & Hc & Hd).
  { unfold safe_name_of in Hsafe.
    destruct (base_name_of _ _) as [| | |base| |]; try done.
    injection Hsafe as <-.
    destruct (ensure_extension_not_dot (sanitize_filename base))
      as (c & Hc & Hd).
    exists c. split; [|done]. by eapply make_unique_filename_keeps_chars. }
  repeat split; intros ->; cbn [chars] in Hc;
    repeat (apply elem_of_cons in Hc as [->|Hc]; [done|]);
    by apply elem_of_nil in Hc.
Qed.

Lemma saved_name_is_plain_entry_witness :
  Forall (λ c, forbidden_char c = false) (chars "a_b_2.pdf")
  ∧ "a_b_2.pdf" ≠ "" ∧ "a_b_2.pdf" ≠ "." ∧ "a_b_2.pdf" ≠ "..".
Proof.
  apply (saved_name_is_plain_entry {[ "a_b.pdf" := File [] ]} "" (JStr "a/b")
           "a_b.pdf"); reflexivity.
Defined.

(** ** What one call of [api_get] costs *)

Lemma sent_retry_trace req os : ∀ i,
  sent (retry_trace req i os) = replicate (length os) req.
Proof.
  induction os as [|o os IH]; intros i; [done|].
  cbn [retry_trace]. destruct os as [|o' os]; [done|].
  unfold sent in *. cbn [omap list_omap length replicate]. f_equal.
  apply (IH (S i)).
Qed.

Lemma retry_trace_last req os o : ∀ i,
  last (retry_trace req i (os ++ [o])) = Some (Got req o).
Proof.
  induction os as [|o1 os IH]; intros i; [done|].
  cbn [app]. rewrite retry_trace_cons by (by destruct os).
  rewrite !last_cons. by rewrite IH.
Qed.

Lemma total_slept_retry_trace req os :
  (length os ≤ 5)%nat → (total_slept (retry_trace req 0 os) <= 45 # 2)%Q.
Proof.
  intros Hlen.
  destruct os as [|o1 [|o2 [|o3 [|o4 [|o5 [|o6 os]]]]]];
    try (cbn in Hlen; lia); by vm_compute.
Qed.

Section ApiGetCost.
Context {Srv : Type} (serve : Srv → Request → Outcome * Srv).

Lemma api_get_events path token params stream (w : World) :
  let req := api_request path token params stream in
  ∃ os o,
    trace (snd (api_get serve path token params stream w))
    = trace w ++ retry_trace req 0 (os ++ [o])
    ∧ folder (snd (api_get serve path token params stream w)) = folder w
    ∧ (length os < 5)%nat
    ∧ match o with
      | Answered resp =>
          fst (api_get serve path token params stream w) = Ok resp
          ∧ (retry_status (status_code resp) = true → length os = 4%nat)
      | Unreachable msg =>
          fst (api_get serve path token params stream w)
          = Raise (RequestException msg)
      end.
Proof.
  cbn zeta.
  destruct (api_get_spec serve path token params stream w) as (os & o & H).
  exists os, o.
  destruct (api_get serve path token params stream w) as [r w'].
  destruct H as (Htr & Hf & _ & Hlen & _ & Ho). cbn [fst snd].
  by repeat split.
Qed.

End ApiGetCost.

(** X9. One call of [api_get] sends between one and five requests, all
    of them the same request, and sleeps no more than 22.5 seconds in
    all (1.5 + 3 + 6 + 12), whatever the server answers. *)
Theorem api_get_waits_at_most
    {Srv : Type} (serve : Srv → Request → Outcome * Srv)
    (path token : string) (params : option (list (string * json)))
    (stream : bool) (w : World) :
  ∃ evs,
    trace (snd (api_get serve path token params stream w)) = trace w ++ evs
    ∧ Forall (λ req, req = api_request path token params stream) (sent evs)
    ∧ (1 ≤ length (sent evs) ≤ 5)%nat
    ∧ (total_slept evs <= 45 # 2)%Q.
Proof.
  destruct (api_get_events serve path token params stream w)
    as (os & o & Htr & _ & Hlen & _).
  eexists. split; [exact Htr|].
  rewrite sent_retry_trace, length_replicate, length_app. cbn [length].
  split; [apply Forall_replicate; done|].
  split; [lia|].
  apply total_slept_retry_trace. rewrite length_app. cbn [length]. lia.
Qed.

(** X10. The only exception that leaves [api_get] is the one
    [requests.get] raised, on the last request sent: the function raises
    nothing of its own, and its last line is never reached with [resp]
    unbound. *)
Theorem api_get_raises_only_transport_errors
    {Srv : Type} (serve : Srv → Request → Outcome * Srv)
    (path token : string) (params : option (list (string * json)))
    (stream : bool) (w : World) (e : exn) (w' : World) :
  api_get serve path token params stream w = (Raise e, w') →
  ∃ msg,
    e = RequestException msg
    ∧ last (trace w')
      = Some (Got (api_request path token params stream) (Unreachable msg)).
Proof.
  intros Hrun.
  destruct (api_get_events serve path token params stream w)
    as (os & o & Htr & _ & _ & Ho).
  rewrite Hrun in Htr, Ho. cbn [fst snd] in *.
  destruct o as [resp|msg]; [by destruct Ho|].
  exists msg. split; [congruence|].
  rewrite Htr, last_app, retry_trace_last. done.
Qed.

Lemma api_get_raises_only_transport_errors_witness :
  ∃ msg,
    RequestException "script exhausted" = RequestException msg
    ∧ last (trace (snd (api_get scripted "/signatures.json" "tok" None false
                          (initial_world [] ∅))))
      = Some (Got (api_request "/signatures.json" "tok" None false)
                (Unreachable msg)).
Proof.
  apply (api_get_raises_only_transport_errors scripted "/signatures.json" "tok"
           None false (initial_world [] ∅)).
  reflexivity.
Defined.

(** X11. [download_signed_pdf] sends one streamed request, without query,
    to the download path of the document, through [api_get]; it returns
    the content of a final 200 response, raises a [RuntimeError] naming
    the status and the body of any other final response (a retryable
    status only after five attempts), lets the exception of
    [requests.get] through, and leaves the folder as it was. *)
Theorem download_signed_pdf_outcomes
    {Srv : Type} (serve : Srv → Request → Outcome * Srv)
    (token : string) (sig_id doc_id : json) (w : World) :
  let run := download_signed_pdf serve token sig_id doc_id w in
  ∃ os o,
    trace (snd run)
    = trace w ++ retry_trace (download_request token sig_id doc_id) 0 (os ++ [o])
    ∧ folder (snd run) = folder w
    ∧ (length os < 5)%nat
    ∧ match o with
      | Answered resp =>
          fst run = (if status_code resp =? 200 then Ok (content resp)
                     else Raise (download_failure resp))
          ∧ (retry_status (status_code resp) = true → length os = 4%nat)
      | Unreachable msg => fst run = Raise (RequestException msg)
      end.
Proof.
  cbn zeta. unfold download_signed_pdf, bind, download_request.
  destruct (api_get_events serve
              ("/signatures/" +:+ py_str sig_id +:+ "/documents/"
               +:+ py_str doc_id +:+ "/download/signed") token None true w)
    as (os & o & Htr & Hf & Hlen & Ho).
  exists os, o.
  destruct (api_get serve _ token None true w) as [[resp|e|] w1];
    cbn [fst snd] in *.
  - destruct o as [resp'|msg]; [|done]. destruct Ho as [[= <-] Hretry].
    unfold download_failure.
    by destruct (status_code resp =? 200).
  - destruct o as [resp'|msg]; [by destruct Ho|]. by injection Ho as ->.
  - by destruct o as [resp'|msg]; [destruct Ho|].
Qed.

(** X12. [fetch_signature_detail] sends one request, without query, to
    the path of the signature through [api_get]; on a final 200 response
    it returns the JSON of the body, or raises the decoding error when
    the body is no JSON; on any other final response it raises a
    [RuntimeError] naming the signature, the status and the body; it
    leaves the folder as it was. *)
Theorem fetch_signature_detail_outcomes
    {Srv : Type} (serve : Srv → Request → Outcome * Srv)
    (token : string) (sig_id : json) (w : World) :
  let run := fetch_signature_detail serve token sig_id w in
  ∃ os o,
    trace (snd run)
    = trace w ++ retry_trace (detail_request token sig_id) 0 (os ++ [o])
    ∧ folder (snd run) = folder w
    ∧ (length os < 5)%nat
    ∧ match o with
      | Answered resp =>
          fst run = (if status_code resp =? 200 then
                       match json_body resp with
                       | Some j => Ok j
                       | None => Raise JSONDecodeError
                       end
                     else Raise (detail_failure sig_id resp))
          ∧ (retry_status (status_code resp) = true → length os = 4%nat)
      | Unreachable msg => fst run = Raise (RequestException msg)
      end.
Proof.
  cbn zeta. unfold fetch_signature_detail, bind, detail_request.
  destruct (api_get_events serve
              ("/signatures/" +:+ py_str sig_id +:+ ".json") token None false w)
    as (os & o & Htr & Hf & Hlen & Ho).
  exists os, o.
  destruct (api_get serve _ token None false w) as [[resp|e|] w1];
    cbn [fst snd] in *.
  - destruct o as [resp'|msg]; [|done]. destruct Ho as [[= <-] Hretry].
    unfold detail_failure, resp_json.
    destruct (status_code resp =? 200); [|done].
    by destruct (json_body resp).
  - destruct o as [resp'|msg]; [by destruct Ho|]. by injection Ho as ->.
  - by destruct o as [resp'|msg]; [destruct Ho|].
Qed.

(** ** Relations every step keeps *)

Section Keeps.
Context {Srv : Type} (R : @World Srv → @World Srv → Prop).
Hypothesis R_refl : ∀ w, R w w.
Hypothesis R_trans : ∀ w1 w2 w3, R w1 w2 → R w2 w3 → R w1 w3.

Lemma keeps_ret {A} (a : A) : keeps R (ret a).
Proof. intros w. apply R_refl. Qed.

Lemma keeps_raise {A} (e : exn) : keeps R (raise (A := A) e).
Proof. intros w. apply R_refl. Qed.

Lemma keeps_out_of_fuel {A} : keeps R (out_of_fuel (A := A)).
Proof. intros w. apply R_refl. Qed.

Lemma keeps_bind {A B} (m : M A) (k : A → M B) :
  keeps R m → (∀ a, keeps R (k a)) → keeps R (bind m k).
Proof.
  intros Hm Hk w. unfold bind. specialize (Hm w).
  destruct (m w) as [[a|e|] w1]; cbn [snd] in *; [|done|done].
  eapply R_trans; [exact Hm|apply Hk].
Qed.

Lemma keeps_try_except {A} (m : M A) (handler : exn → M A) :
  keeps R m → (∀ e, keeps R (handler e)) → keeps R (try_except m handler).
Proof.
  intros Hm Hh w. unfold try_except. specialize (Hm w).
  destruct (m w) as [[a|e|] w1]; cbn [snd] in *; [done| |done].
  eapply R_trans; [exact Hm|apply Hh].
Qed.

Lemma keeps_for_each {A} (body : Summary → A → M Summary) items :
  (∀ c x, keeps R (body c x)) → ∀ c, keeps R (for_each body items c).
Proof.
  intros Hbody. induction items as [|x items IH]; intros c.
  - apply keeps_ret.
  - cbn [for_each]. apply keeps_bind; [apply Hbody|apply IH].
Qed.

Lemma keeps_as_dict j : keeps R (as_dict j).
Proof. destruct j; first [apply keeps_ret|apply keeps_raise]. Qed.

(** The two loops of [main] keep a relation that the steps of their
    bodies keep. *)
Section Loops.
Variable serve : Srv → Request → Outcome * Srv.
Variable token : string.
Hypothesis detail_keeps :
  ∀ sig_id, keeps R (fetch_signature_detail serve token sig_id).
Hypothesis mkdir_keeps : keeps R mkdir_debug_dir.
Hypothesis dump_keeps : ∀ sig_id detail, keeps R (dump_detail sig_id detail).
Hypothesis document_keeps :
  ∀ sig_id created_at email_used counts doc,
    keeps R (process_document serve token sig_id created_at email_used counts
               doc).

Lemma process_signature_keeps counts sig :
  keeps R (process_signature serve token counts sig).
Proof.
  unfold process_signature.
  apply keeps_bind; [apply keeps_as_dict|]. intros s. cbn zeta.
  apply keeps_bind.
  { apply keeps_try_except; [apply detail_keeps|]. intros _. apply keeps_ret. }
  intros detail. apply keeps_bind.
  { destruct (str_truthy _); [apply keeps_ret|].
    apply keeps_bind; [apply mkdir_keeps|]. intros _. apply dump_keeps. }
  intros _. destruct (py_iter _) as [docs|]; [|apply keeps_raise].
  apply keeps_for_each. intros c doc. apply document_keeps.
Qed.

Lemma process_signatures_keeps signatures :
  keeps R (process_signatures serve token signatures).
Proof.
  unfold process_signatures. apply keeps_for_each.
  intros c sig. apply process_signature_keeps.
Qed.

End Loops.
End Keeps.

(** ** Nothing in the folder is lost *)

Lemma kept_refl f : kept f f.
Proof.
  split; [done|]. split; [by eauto|].
  exists []. by rewrite app_nil_r.
Qed.

Lemma kept_trans f1 f2 f3 : kept f1 f2 → kept f2 f3 → kept f1 f3.
Proof.
  intros (Hf1 & Hd1 & a1 & Hl1 & Ha1) (Hf2 & Hd2 & a2 & Hl2 & Ha2).
  split; [by eauto|]. split.
  - intros name es Hne Hes.
    destruct (Hd1 name es Hne Hes) as (es' & Hes' & Hsub).
    destruct (Hd2 name es' Hne Hes') as (es'' & Hes'' & Hsub').
    exists es''. split; [done|]. by trans es'.
  - exists (a1 ++ a2). rewrite Hl2, Hl1, app_assoc. split; [done|].
    by apply Forall_app.
Qed.

Lemma has_ledger_free (f : gmap string node) name :
  has_ledger f → f !! name = None → name ≠ LOG_NAME.
Proof. intros [data Hd] Hn ->. congruence. Qed.

Lemma kept_insert_fresh (f : gmap string node) name nd :
  f !! name = None → name ≠ LOG_NAME → kept f (<[name := nd]> f).
Proof.
  intros Hnone Hne. split; [|split].
  - intros n data _ Hn. rewrite lookup_insert_ne; [done|].
    intros ->. by rewrite Hnone in Hn.
  - intros n es _ Hn. exists es. rewrite lookup_insert_ne; [done|].
    intros ->. by rewrite Hnone in Hn.
  - exists []. rewrite app_nil_r. unfold ledger.
    by rewrite lookup_insert_ne.
Qed.

Lemma kept_grow_dir (f : gmap string node) name es es' :
  f !! name = Some (Dir es) → es ⊆ es' → name ≠ LOG_NAME →
  kept f (<[name := Dir es']> f).
Proof.
  intros Hdir Hsub Hne. split; [|split].
  - intros n data _ Hn. rewrite lookup_insert_ne; [done|].
    intros ->. by rewrite Hdir in Hn.
  - intros n es0 _ Hn. destruct (decide (n = name)) as [->|Hnn].
    + rewrite lookup_insert_eq. exists es'. split; [done|].
      rewrite Hdir in Hn. by injection Hn as <-.
    + exists es0. by rewrite lookup_insert_ne.
  - exists []. rewrite app_nil_r. unfold ledger.
    by rewrite lookup_insert_ne.
Qed.

Lemma has_ledger_insert (f : gmap string node) name nd :
  has_ledger f → name ≠ LOG_NAME → has_ledger (<[name := nd]> f).
Proof. intros [data Hd] Hne. exists data. by rewrite lookup_insert_ne. Qed.

Lemma kept_append_row f row :
  has_ledger f → document_row row →
  kept f (append_row row f) ∧ has_ledger (append_row row f).
Proof.
  intros Hl Hrow. split.
  - split; [|split].
    + intros n data Hne Hn. by rewrite append_row_other.
    + intros n es Hne Hn. exists es. by rewrite append_row_other.
    + exists [CsvRow row]. split; [by apply ledger_append_row|].
      constructor; [|done]. exists row. split; [done|by right].
  - destruct Hl as [data Hd]. unfold append_row. rewrite Hd.
    eexists. apply lookup_insert_eq.
Qed.

Lemma log_row_document_row sig_id doc_id email_used original path created_at
    status error :
  status = "downloaded" ∨ status = "error" →
  document_row (log_row sig_id doc_id email_used original path created_at
                  status error).
Proof. intros [-> | ->]; (split; [done|]); [by left|by right]. Qed.

Section NothingLost.
Context {Srv : Type} (serve : Srv → Request → Outcome * Srv).

Lemma kept_with_ledger_refl (w : @World Srv) : kept_with_ledger w w.
Proof. intros Hl. split; [apply kept_refl|done]. Qed.

Lemma kept_with_ledger_trans (w1 w2 w3 : @World Srv) :
  kept_with_ledger w1 w2 → kept_with_ledger w2 w3 → kept_with_ledger w1 w3.
Proof.
  intros H12 H23 Hl. destruct (H12 Hl) as [Hk Hl2].
  destruct (H23 Hl2) as [Hk' Hl3]. split; [by eapply kept_trans|done].
Qed.

Lemma same_folder_keeps {A} (m : @M Srv A) :
  (∀ w, folder (snd (m w)) = folder w) → keeps kept_with_ledger m.
Proof. intros H w Hl. rewrite H. split; [apply kept_refl|done]. Qed.

Lemma mkdir_debug_dir_keeps : keeps (Srv := Srv) kept_with_ledger mkdir_debug_dir.
Proof.
  intros w Hl. unfold mkdir_debug_dir, bind, get_folder.
  destruct (folder w !! DEBUG_DIR) as [[data|es]|] eqn:E;
    cbn [snd ret raise set_folder folder].
  - split; [apply kept_refl|done].
  - split; [apply kept_refl|done].
  - split; [by apply kept_insert_fresh|by apply has_ledger_insert].
Qed.

Lemma dump_detail_keeps sig_id detail :
  keeps (Srv := Srv) kept_with_ledger (dump_detail sig_id detail).
Proof.
  intros w Hl. unfold dump_detail, set_folder. cbn [snd folder].
  destruct (folder w !! DEBUG_DIR) as [[data|es]|] eqn:E;
    try (split; [apply kept_refl|done]).
  destruct (py_truthy detail); cbn [andb]; [|split; [apply kept_refl|done]].
  destruct (bool_decide _) eqn:Hex; cbn [negb];
    [split; [apply kept_refl|done]|].
  apply bool_decide_eq_false in Hex.
  split; [|by apply has_ledger_insert].
  eapply kept_grow_dir; [done| |done].
  apply insert_subseteq. by apply eq_None_not_Some.
Qed.

Lemma process_document_keeps token sig_id created_at email_used counts doc :
  keeps kept_with_ledger
    (process_document serve token sig_id created_at email_used counts doc).
Proof.
  intros w Hl. rewrite process_document_unfold.
  destruct (document_names email_used doc) as [e|[[doc_id original] safe]];
    [split; [apply kept_refl|done]|].
  destruct (make_unique_filename (folder w) safe) as [out|] eqn:Hout;
    [|split; [apply kept_refl|done]].
  apply make_unique_filename_least in Hout as [Hfree _].
  assert (folder w !! out = None) as Hnone.
  { unfold path_exists in Hfree. apply bool_decide_eq_false in Hfree.
    by apply eq_None_not_Some. }
  pose proof (has_ledger_free _ _ Hl Hnone) as Hne.
  pose proof (download_signed_pdf_folder serve token sig_id doc_id w) as Hf.
  destruct (download_signed_pdf serve token sig_id doc_id w)
    as [[pdf|e|] w1]; cbn [snd with_folder folder] in *.
  - edestruct (kept_append_row (<[out := File [Bytes pdf]]> (folder w)))
      as [Hk Hl'];
      [by apply has_ledger_insert
      |apply log_row_document_row; by left|].
    split; [|exact Hl'].
    eapply kept_trans; [by apply kept_insert_fresh|exact Hk].
  - by apply kept_append_row; [|apply log_row_document_row; right].
  - rewrite Hf. split; [apply kept_refl|done].
Qed.

Lemma process_signatures_kept token signatures :
  keeps kept_with_ledger (process_signatures serve token signatures).
Proof.
  apply process_signatures_keeps.
  - apply kept_with_ledger_refl.
  - apply kept_with_ledger_trans.
  - intros sig_id. apply same_folder_keeps. intros w.
    apply fetch_signature_detail_folder.
  - apply mkdir_debug_dir_keeps.
  - apply dump_detail_keeps.
  - apply process_document_keeps.
Qed.

Lemma open_ledger_kept (w : @World Srv) :
  kept (folder w) (folder (snd (open_ledger w)))
  ∧ (fst (open_ledger w) = Ok tt → has_ledger (folder (snd (open_ledger w)))).
Proof.
  unfold open_ledger, bind, get_folder, path_exists.
  destruct (folder w !! LOG_NAME) as [[data|es]|] eqn:E.
  - rewrite bool_decide_eq_true_2 by by eexists.
    cbn [ret]. rewrite E. cbn [fst snd]. split; [apply kept_refl|].
    intros _. by exists data.
  - rewrite bool_decide_eq_true_2 by by eexists.
    cbn [ret]. rewrite E. cbn [fst snd raise]. split; [apply kept_refl|done].
  - rewrite bool_decide_eq_false_2 by by intros [? ?].
    unfold set_folder. cbn [folder]. rewrite lookup_insert_eq. cbn [fst snd ret folder].
    split; [|intros _; eexists; apply lookup_insert_eq].
    split; [|split].
    + intros n d Hne Hn. by rewrite lookup_insert_ne.
    + intros n es Hne Hn. exists es. by rewrite lookup_insert_ne.
    + exists [CsvRow HEADER_ROW]. unfold ledger.
      rewrite lookup_insert_eq, E. split; [done|].
      constructor; [|done]. exists HEADER_ROW. split; [done|by left].
Qed.

Lemma main_kept fuel today env_token (w : World) :
  kept (folder w) (folder (snd (main serve fuel today env_token w))).
Proof.
  unfold main. destruct (_ || _); [apply kept_refl|].
  unfold bind at 1, ensure_folder, ret. unfold bind at 1.
  pose proof (fetch_signatures_for_year_folder serve fuel today
                (TOKEN env_token) YEAR w) as Hf.
  destruct (fetch_signatures_for_year serve fuel today (TOKEN env_token) YEAR w)
    as [[sigs|e|] w1]; cbn [snd] in *;
    [|rewrite Hf; apply kept_refl..].
  rewrite <- Hf. unfold bind at 1.
  destruct (open_ledger_kept w1) as [Hk Hl].
  destruct (open_ledger w1) as [[[]|e|] w2]; cbn [fst snd] in *; [|done..].
  eapply kept_trans; [exact Hk|].
  by apply (process_signatures_kept (TOKEN env_token) sigs w2), Hl.
Qed.

End NothingLost.

(** X13. [main] never overwrites or deletes a file: every file that was
    in the year's folder before a run, the ledger apart, is there after
    the run with the content it had, whatever the server answered and
    however the run ended. *)
Theorem main_never_overwrites_a_file
    {Srv : Type} (serve : Srv → Request → Outcome * Srv)
    (fuel : nat) (today : date) (env_token : option string) (w : World)
    (name : string) (data : list chunk) :
  name ≠ LOG_NAME →
  folder w !! name = Some (File data) →
  folder (snd (main serve fuel today env_token w)) !! name = Some (File data).
Proof.
  intros Hne Hfile.
  destruct (main_kept serve fuel today env_token w) as [Hfiles _].
  by apply Hfiles.
Qed.

Lemma main_never_overwrites_a_file_witness :
  folder (snd second_run) !! "user@example.com_report.pdf"
  = Some (File [Bytes "%PDF-1"]).
Proof.
  apply (main_never_overwrites_a_file scripted 2 a_day_in_2026 (Some "tok")
           (initial_world one_report_server (folder (snd first_run))));
    [done|]. vm_compute. reflexivity.
Defined.

(** X14. The ledger is only ever appended to: after a run of [main],
    however it ended, the ledger is what it was before followed by what
    the run wrote, which is nothing but a header or rows of eight fields
    with the status [downloaded] or [error]. *)
Theorem main_appends_to_the_ledger
    {Srv : Type} (serve : Srv → Request → Outcome * Srv)
    (fuel : nat) (today : date) (env_token : option string) (w : World) :
  ∃ added,
    ledger (folder (snd (main serve fuel today env_token w)))
    = ledger (folder w) ++ added
    ∧ Forall ledger_chunk added.
Proof.
  by destruct (main_kept serve fuel today env_token w) as (_ & _ & H).
Qed.

(** X15. A sample in the folder [_no_email_samples] is never rewritten
    or removed: every sample that was there before a run of [main] is
    there after it, unchanged. *)
Theorem main_keeps_debug_samples
    {Srv : Type} (serve : Srv → Request → Outcome * Srv)
    (fuel : nat) (today : date) (env_token : option string) (w : World)
    (samples : gmap string (list chunk)) (sample : string)
    (data : list chunk) :
  folder w !! DEBUG_DIR = Some (Dir samples) →
  samples !! sample = Some data →
  ∃ samples',
    folder (snd (main serve fuel today env_token w)) !! DEBUG_DIR
    = Some (Dir samples')
    ∧ samples' !! sample = Some data.
Proof.
  intros Hdir Hsample.
  destruct (main_kept serve fuel today env_token w) as (_ & Hdirs & _).
  destruct (Hdirs DEBUG_DIR samples) as (samples' & Hdir' & Hsub); [done..|].
  exists samples'. split; [done|].
  by eapply lookup_weaken.
Qed.

Lemma main_keeps_debug_samples_witness :
  ∃ samples',
    folder (snd (main scripted 2 a_day_in_2026 (Some "tok")
                   (initial_world one_report_server sample_folder))) !! DEBUG_DIR
    = Some (Dir samples')
    ∧ samples' !! "s0.json" = Some [JsonText (JObj [("id", JStr "s0")])].
Proof.
  apply (main_keeps_debug_samples scripted 2 a_day_in_2026 (Some "tok")
           (initial_world one_report_server sample_folder) one_sample);
    reflexivity.
Defined.

(** ** Substrings *)

Lemma prefix_app_iff p s : String.prefix p s = true ↔ ∃ b, s = p +:+ b.
Proof.
  revert s. induction p as [|a p IH]; intros s.
  - split; [intros _; by exists s|]. intros _. by destruct s.
  - destruct s as [|c s]; cbn [String.prefix].
    + split; [done|]. by intros [b Hb].
    + destruct (ascii_dec a c) as [->|Hac].
      * rewrite IH. split; intros [b Hb]; exists b.
        -- by rewrite str_app_cons, Hb.
        -- rewrite str_app_cons in Hb. by injection Hb.
      * split; [done|]. intros [b Hb]. rewrite str_app_cons in Hb.
        injection Hb as Hc _. by destruct Hac.
Qed.

Lemma str_contains_iff needle s :
  str_contains needle s = true ↔ ∃ a b, s = a +:+ needle +:+ b.
Proof.
  induction s as [|c s IH].
  - cbn [str_contains]. rewrite orb_false_r, prefix_app_iff. split.
    + intros [b Hb]. by exists "", b.
    + intros (a & b & Hab). destruct a as [|c a]; [by exists b|done].
  - cbn [str_contains]. rewrite orb_true_iff, prefix_app_iff, IH. split.
    + intros [[b Hb]|(a & b & Hab)].
      * by exists "", b.
      * exists (String c a), b. by rewrite str_app_cons, Hab.
    + intros (a & b & Hab). destruct a as [|c' a].
      * left. by exists b.
      * right. rewrite str_app_cons in Hab. injection Hab as _ Hab.
        by exists a, b.
Qed.

(** ** The token check of [main] *)

(** X16. [main] refuses to start, raising [SystemExit] with its message
    before any request is sent and before anything is written, when the
    environment variable is unset or empty or holds a token in which
    the text [PASTE_YOUR_TOKEN_HERE] occurs; these are exactly the cases
    in which the token check fails. *)
Theorem main_refuses_unusable_token
    {Srv : Type} (serve : Srv → Request → Outcome * Srv)
    (fuel : nat) (today : date) (env_token : option string) (w : World) :
  let unusable :=
    env_token = None ∨ env_token = Some ""
    ∨ ∃ a b, env_token = Some (a +:+ PLACEHOLDER +:+ b) in
  (unusable ↔ token_ok env_token = false)
  ∧ (unusable →
     main serve fuel today env_token w = (Raise (SystemExit NO_TOKEN_MESSAGE), w)).
Proof.
  cbn zeta.
  assert (Hiff : (env_token = None ∨ env_token = Some ""
                  ∨ ∃ a b, env_token = Some (a +:+ PLACEHOLDER +:+ b))
                 ↔ token_ok env_token = false).
  { unfold token_ok. rewrite negb_false_iff, orb_true_iff, str_contains_iff.
    split.
    - intros [->|[->|(a & b & ->)]]; [right; by exists "", ""..|].
      right. cbn [TOKEN].
      destruct (str_truthy (a +:+ PLACEHOLDER +:+ b)); [by exists a, b|].
      by exists "", "".
    - intros [Hempty|(a & b & Hab)].
      + by destruct env_token as [[|c t]|]; [right; left| |left].
      + destruct env_token as [[|c t]|]; [by right; left| |by left].
        right; right. change (TOKEN (Some (String c t))) with (String c t) in Hab.
        exists a, b. by rewrite Hab. }
  split; [done|].
  intros Hbad%Hiff. unfold token_ok in Hbad. apply negb_false_iff in Hbad.
  unfold main. by rewrite Hbad.
Qed.

(** ** Every request goes to the API *)

Lemma api_request_event path token params stream o :
  api_event token (Got (api_request path token params stream) o).
Proof.
  split; [done|]. split; [|done].
  cbn [url api_request]. apply prefix_app_iff. by exists path.
Qed.

Lemma retry_trace_api_events path token params stream os : ∀ i,
  (i + length os ≤ 5)%nat →
  Forall (api_event token)
    (retry_trace (api_request path token params stream) i os).
Proof.
  induction os as [|o os IH]; intros i Hlen; [constructor|].
  cbn [retry_trace]. constructor; [apply api_request_event|].
  destruct os as [|o' os]; [constructor|].
  constructor.
  - exists i. cbn [length] in Hlen. split; [lia|done].
  - apply IH. cbn [length] in *. lia.
Qed.

Section ApiOnly.
Context {Srv : Type} (serve : Srv → Request → Outcome * Srv).
Variable token : string.

Lemma api_only_refl (w : @World Srv) : api_only token w w.
Proof. exists []. by rewrite app_nil_r. Qed.

Lemma api_only_trans (w1 w2 w3 : @World Srv) :
  api_only token w1 w2 → api_only token w2 w3 → api_only token w1 w3.
Proof.
  intros (e1 & H1 & F1) (e2 & H2 & F2). exists (e1 ++ e2).
  rewrite H2, H1, app_assoc. split; [done|]. by apply Forall_app.
Qed.

Lemma same_trace_keeps {A} (m : @M Srv A) :
  (∀ w, trace (snd (m w)) = trace w) → keeps (api_only token) m.
Proof. intros H w. exists []. by rewrite app_nil_r, H. Qed.

Lemma api_get_api_only path params stream :
  keeps (api_only token) (api_get serve path token params stream).
Proof.
  intros w.
  destruct (api_get_events serve path token params stream w)
    as (os & o & Htr & _ & Hlen & _).
  eexists. split; [exact Htr|].
  apply retry_trace_api_events. rewrite length_app. cbn [length]. lia.
Qed.

Lemma resp_json_api_only resp : keeps (Srv := Srv) (api_only token) (resp_json resp).
Proof.
  unfold resp_json. destruct (json_body resp);
    [apply keeps_ret|apply keeps_raise]; apply api_only_refl.
Qed.

Lemma fetch_signature_detail_api_only sig_id :
  keeps (api_only token) (fetch_signature_detail serve token sig_id).
Proof.
  unfold fetch_signature_detail.
  apply keeps_bind; [apply api_only_trans|apply api_get_api_only|].
  intros resp. destruct (negb _);
    [apply keeps_raise, api_only_refl|apply resp_json_api_only].
Qed.

Lemma download_signed_pdf_api_only sig_id doc_id :
  keeps (api_only token) (download_signed_pdf serve token sig_id doc_id).
Proof.
  unfold download_signed_pdf.
  apply keeps_bind; [apply api_only_trans|apply api_get_api_only|].
  intros resp. destruct (negb _);
    [apply keeps_raise|apply keeps_ret]; apply api_only_refl.
Qed.

Lemma process_document_api_only sig_id created_at email_used counts doc :
  keeps (api_only token)
    (process_document serve token sig_id created_at email_used counts doc).
Proof.
  intros w. rewrite process_document_unfold.
  destruct (document_names email_used doc) as [e|[[doc_id original] safe]];
    [apply api_only_refl|].
  destruct (make_unique_filename (folder w) safe) as [out|];
    [|apply api_only_refl].
  pose proof (download_signed_pdf_api_only sig_id doc_id w) as H.
  by destruct (download_signed_pdf serve token sig_id doc_id w)
    as [[pdf|e|] w1].
Qed.

Lemma mkdir_debug_dir_trace (w : @World Srv) :
  trace (snd (mkdir_debug_dir w)) = trace w.
Proof.
  unfold mkdir_debug_dir, bind, get_folder.
  by destruct (folder w !! DEBUG_DIR) as [[data|es]|].
Qed.

Lemma open_ledger_trace (w : @World Srv) :
  trace (snd (open_ledger w)) = trace w.
Proof.
  unfold open_ledger, bind, get_folder.
  destruct (path_exists (folder w) LOG_NAME); cbn [ret set_folder folder].
  - by destruct (folder w !! LOG_NAME) as [[data|es]|].
  - by destruct (<[LOG_NAME:=_]> (folder w) !! LOG_NAME) as [[data|es]|].
Qed.

Lemma fetch_pages_api_only since until :
  ∀ fuel offset collected,
    keeps (api_only token)
      (fetch_pages serve fuel token since until offset collected).
Proof.
  induction fuel as [|fuel IH]; intros offset collected;
    [apply keeps_out_of_fuel, api_only_refl|].
  cbn [fetch_pages].
  apply keeps_bind; [apply api_only_trans|apply api_get_api_only|].
  intros resp. destruct (negb (status_code resp =? 200));
    [apply keeps_raise, api_only_refl|].
  apply keeps_bind; [apply api_only_trans|apply resp_json_api_only|].
  intros page. destruct (negb (py_truthy page));
    [apply keeps_ret, api_only_refl|].
  destruct (py_iter page) as [items|]; [|apply keeps_raise, api_only_refl].
  destruct (_ <? _); [apply keeps_ret, api_only_refl|apply IH].
Qed.

Lemma main_api_only fuel today env_token :
  token = TOKEN env_token →
  keeps (api_only token) (main serve fuel today env_token).
Proof.
  intros Htok. unfold main. rewrite <- Htok.
  destruct (_ || _); [apply keeps_raise, api_only_refl|].
  apply keeps_bind; [apply api_only_trans|apply keeps_ret, api_only_refl|].
  intros _. apply keeps_bind; [apply api_only_trans| |].
  { unfold fetch_signatures_for_year.
    destruct (build_date_range_for_year today YEAR).
    apply fetch_pages_api_only. }
  intros sigs. apply keeps_bind; [apply api_only_trans| |].
  { apply same_trace_keeps, open_ledger_trace. }
  intros _. apply process_signatures_keeps.
  - apply api_only_refl.
  - apply api_only_trans.
  - apply fetch_signature_detail_api_only.
  - apply same_trace_keeps, mkdir_debug_dir_trace.
  - intros sig_id detail. by apply same_trace_keeps.
  - apply process_document_api_only.
Qed.

(** ** The requests of the lister *)



End ApiOnly.

(** X17. During a run of [main] every request goes to a URL under the
    base URL of the API, carries the token in the authorization header
    and no other header, and has the timeout of 60 seconds; every sleep
    is one of the four delays of the backoff.  This holds however the
    run ends. *)
Theorem main_talks_to_the_api_only
    {Srv : Type} (serve : Srv → Request → Outcome * Srv)
    (fuel : nat) (today : date) (env_token : option string) (w : World) :
  ∃ evs,
    trace (snd (main serve fuel today env_token w)) = trace w ++ evs
    ∧ Forall (api_event (TOKEN env_token)) evs.
Proof. by apply (main_api_only serve (TOKEN env_token)). Qed.


(** ** The pattern of [add_email], in elementary terms *)

Lemma chars_of_chars l : chars (of_chars l) = l.
Proof. induction l as [|c l IH]; [done|]. cbn. by rewrite IH. Qed.

Lemma of_chars_chars s : of_chars (chars s) = s.
Proof. induction s as [|c s IH]; [done|]. cbn. by rewrite IH. Qed.

Lemma matches_plus_inv cls pat s n :
  matches (Plus cls :: pat) s n →
  ∃ u s' m, u ≠ [] ∧ Forall (λ c, cls c = true) u
            ∧ chars s = u ++ chars s' ∧ matches pat s' m.
Proof.
  intros H. remember (Plus cls :: pat) as p eqn:Hp.
  induction H as [s|c pat' s n _ IH|pat' n _ IH|pat' n _ IH
                 |cls' pat' a s n Ha Hrest IH|cls' pat' a s n Ha _ IH];
    try discriminate Hp; injection Hp as -> ->.
  - exists [a], s, n. repeat split; try done. by constructor.
  - destruct (IH eq_refl) as (u & s' & m & _ & Hu & Hs & Hm).
    exists (a :: u), s', m. cbn [chars]. rewrite Hs.
    repeat split; try done. by constructor.
Qed.

Lemma matches_eos_inv s n : matches [Eos] s n → s = "" ∨ s = String "010" "".
Proof. inversion 1; subst; [by left|by right]. Qed.

Lemma matches_plus_intro cls pat : ∀ u,
  u ≠ [] → Forall (λ c, cls c = true) u →
  ∀ s' m, matches pat s' m →
          ∃ n, matches (Plus cls :: pat) (of_chars u +:+ s') n.
Proof.
  induction u as [|a u IH]; [done|].
  intros _ [Ha Hu]%Forall_cons s' m Hm. cbn [of_chars].
  rewrite str_app_cons. destruct u as [|a' u'].
  - exists (S m). by apply matches_plus_last.
  - destruct (IH ltac:(done) Hu s' m Hm) as [n Hn].
    exists (S n). by apply matches_plus_more.
Qed.

Lemma email_char_plain c :
  email_char c = true → c ≠ "@"%char ∧ py_isspace c = false.
Proof.
  unfold email_char. rewrite negb_true_iff, orb_false_iff.
  intros [Hat Hsp]. split; [|done]. intros ->. by vm_compute in Hat.
Qed.

Lemma email_shape_no_space e :
  email_shape e → Forall (λ c, py_isspace c = false) (chars e).
Proof.
  intros (u & v & x & -> & _ & _ & _ & Hall).
  apply Forall_app in Hall as [Hu Hvx]. apply Forall_app in Hvx as [Hv Hx].
  assert (Hplain : ∀ l, Forall (λ c, email_char c = true) l →
                        Forall (λ c, py_isspace c = false) l).
  { intros l Hl. eapply Forall_impl; [exact Hl|].
    intros c Hc. by destruct (email_char_plain c Hc). }
  apply Forall_app. split; [by apply Hplain|].
  constructor; [done|]. apply Forall_app. split; [by apply Hplain|].
  constructor; [done|by apply Hplain].
Qed.

Lemma email_shape_matches e :
  email_shape e → re_match EMAIL_ANCHORED e = true.
Proof.
  intros (u & v & x & He & Hu & Hv & Hx & Hall).
  apply Forall_app in Hall as [Fu Fvx]. apply Forall_app in Fvx as [Fv Fx].
  apply bool_decide_eq_true.
  assert (e = of_chars u +:+ String "@" (of_chars v +:+ String "." (of_chars x +:+ "")))
    as ->.
  { apply chars_inj. rewrite He, chars_app, chars_of_chars. cbn [chars].
    rewrite chars_app, chars_of_chars. cbn [chars].
    by rewrite chars_app, chars_of_chars, app_nil_r. }
  unfold EMAIL_ANCHORED, EMAIL_PATTERN. cbn [app].
  destruct (matches_plus_intro email_char [Eos] x Hx Fx "" 0) as [n3 H3];
    [apply matches_eos_end, matches_nil|].
  destruct (matches_plus_intro email_char
              [Lit "."; Plus email_char; Eos] v Hv Fv _ _
              (matches_lit _ _ _ _ H3)) as [n2 H2].
  destruct (matches_plus_intro email_char
              [Lit "@"; Plus email_char; Lit "."; Plus email_char; Eos] u Hu Fu
              _ _ (matches_lit _ _ _ _ H2)) as [n1 H1].
  by eapply match_here_complete.
Qed.

Lemma matches_shape e :
  re_match EMAIL_ANCHORED e = true →
  (∀ c, last_char e = Some c → py_isspace c = false) →
  email_shape e.
Proof.
  unfold re_match. rewrite bool_decide_eq_true. intros [n Hn] Hlast.
  apply match_here_sound in Hn. unfold EMAIL_ANCHORED, EMAIL_PATTERN in Hn.
  cbn [app] in Hn.
  apply matches_plus_inv in Hn as (u & s1 & n1 & Hu & Fu & Hs & Hn).
  apply matches_lit_split in Hn as (s2 & n2 & -> & Hn).
  apply matches_plus_inv in Hn as (v & s3 & n3 & Hv & Fv & Hs2 & Hn).
  apply matches_lit_split in Hn as (s4 & n4 & -> & Hn).
  apply matches_plus_inv in Hn as (x & s5 & n5 & Hx & Fx & Hs4 & Hn).
  apply matches_eos_inv in Hn as [->| ->].
  - exists u, v, x. cbn [chars] in *. rewrite app_nil_r in Hs4.
    rewrite Hs, Hs2, Hs4. repeat split; try done.
    by repeat (apply Forall_app; split).
  - exfalso. cbn [chars] in *.
    assert (last_char e = Some "010"%char) as Hl.
    { unfold last_char. rewrite Hs, Hs2, Hs4.
      rewrite last_app, last_cons, last_app, last_cons, last_app. done. }
    by specialize (Hlast _ Hl).
Qed.

Lemma strip_last s c : last_char (strip s) = Some c → py_isspace c = false.
Proof. unfold strip. apply rstrip_last. Qed.

Lemma re_match_strip_shape s :
  re_match EMAIL_ANCHORED (strip s) = true ↔ email_shape (strip s).
Proof.
  split; [|apply email_shape_matches].
  intros H. apply matches_shape; [done|]. apply strip_last.
Qed.

Lemma accept_shape e x : accept e = Some x → email_shape x.
Proof.
  unfold accept. destruct e; try done.
  destruct (re_match EMAIL_ANCHORED (strip s)) eqn:E; [|done].
  intros [= <-]. by apply re_match_strip_shape.
Qed.

Lemma structured_scan_shape j : Forall email_shape (structured_scan j).
Proof.
  destruct j; try by constructor. cbn [structured_scan].
  apply Forall_forall. intros x Hx. apply (proj1 (first_seen_elem _ _)) in Hx.
  apply list_elem_of_omap in Hx as (e & _ & He). by eapply accept_shape.
Qed.

Lemma deep_search_shape j : Forall email_shape (deep_search j).
Proof.
  destruct j; try by constructor. unfold deep_search.
  apply Forall_forall. intros x Hx. apply (proj1 (first_seen_elem _ _)) in Hx.
  apply email_matches_valid in Hx as [Hstrip Hm].
  rewrite <- Hstrip. apply re_match_strip_shape. by rewrite Hstrip.
Qed.

(** What holds of the empty list and of the result of every strategy
    holds of the result of [extract_emails]. *)
Lemma extract_emails_cases (P : list string → Prop) sig_summary sig_detail :
  P [] → (∀ j, P (structured_scan j)) → (∀ j, P (deep_search j)) →
  P (extract_emails sig_summary sig_detail).
Proof.
  intros Hnil Hscan Hdeep. rewrite extract_emails_strategies.
  cbn [first_nonempty].
  destruct (structured_scan sig_detail) eqn:E1; [|rewrite <- E1; apply Hscan].
  destruct (structured_scan sig_summary) eqn:E2; [|rewrite <- E2; apply Hscan].
  destruct (deep_search sig_detail) eqn:E3; [|rewrite <- E3; apply Hdeep].
  destruct (deep_search sig_summary) eqn:E4; [done|rewrite <- E4; apply Hdeep].
Qed.

Lemma extract_emails_shape sig_summary sig_detail :
  Forall email_shape (extract_emails sig_summary sig_detail).
Proof.
  apply extract_emails_cases;
    [constructor|apply structured_scan_shape|apply deep_search_shape].
Qed.

Lemma filter_at_email_chars l :
  Forall (λ c, email_char c = true) l → List.filter (Ascii.eqb "@") l = [].
Proof.
  induction 1 as [|c l Hc _ IH]; [done|]. cbn [List.filter].
  apply email_char_plain in Hc as [Hat _].
  destruct (Ascii.eqb_spec "@" c) as [<-|_]; [done|apply IH].
Qed.

(** X19. [add_email] takes a string exactly when, stripped of the white
    space around it, it reads: local part, at sign, domain part, dot,
    last part, the three parts not empty and free of at signs and white
    space.  Such a string is appended, stripped, unless it is in the
    list already; any other string, and anything that is not a string,
    leaves the list as it is. *)
Theorem add_email_accepts_exactly (e : json) (emails : list string) :
  (∀ s, e = JStr s → email_shape (strip s) →
        add_email e emails
        = if bool_decide (strip s ∈ emails) then emails
          else emails ++ [strip s])
  ∧ (∀ s, e = JStr s → ¬ email_shape (strip s) → add_email e emails = emails)
  ∧ ((∀ s, e ≠ JStr s) → add_email e emails = emails).
Proof.
  split; [|split].
  - intros s -> Hs%re_match_strip_shape. cbn [add_email]. by rewrite Hs.
  - intros s -> Hs. cbn [add_email].
    destruct (re_match EMAIL_ANCHORED (strip s)) eqn:E; [|done].
    by apply re_match_strip_shape in E.
  - intros Hne. destruct e; try done. by destruct (Hne s).
Qed.

(** X20. Every address [extract_emails] returns has the shape local
    part, at sign, domain part, dot, last part; it holds exactly one at
    sign and no white space. *)
Theorem extract_emails_addresses_shape (sig_summary sig_detail : json)
    (e : string) :
  e ∈ extract_emails sig_summary sig_detail →
  email_shape e
  ∧ length (List.filter (Ascii.eqb "@") (chars e)) = 1%nat
  ∧ Forall (λ c, py_isspace c = false) (chars e).
Proof.
  intros He.
  pose proof (extract_emails_shape sig_summary sig_detail) as Hall.
  rewrite Forall_forall in Hall. specialize (Hall e He).
  split; [done|]. split; [|by apply email_shape_no_space].
  destruct Hall as (u & v & x & -> & _ & _ & _ & Hall).
  apply Forall_app in Hall as [Fu Fvx]. apply Forall_app in Fvx as [Fv Fx].
  rewrite List.filter_app. cbn [List.filter].
  rewrite List.filter_app. cbn [List.filter].
  rewrite !filter_at_email_chars by done.
  change (Ascii.eqb "@" "@") with true. change (Ascii.eqb "@" ".") with false.
  done.
Qed.

Lemma extract_emails_addresses_shape_witness :
  email_shape "a@x.com"
  ∧ length (List.filter (Ascii.eqb "@") (chars "a@x.com")) = 1%nat
  ∧ Forall (λ c, py_isspace c = false) (chars "a@x.com").
Proof.
  apply (extract_emails_addresses_shape JNull same_signer_twice "a@x.com").
  vm_compute. by left.
Defined.

(** ** The prefix of the file names *)

Lemma email_shape_nonempty e : email_shape e → e ≠ "".
Proof. intros (u & v & x & He & _) ->. by destruct u. Qed.

(** X21. The prefix [email_used] that [main] joins from the addresses is
    empty exactly when [extract_emails] found no address: the sample of
    the detail is dumped for the signatures without address and for no
    other, and a file name has an address prefix whenever an address was
    found. *)
Theorem email_used_empty_iff_no_address (sig_summary sig_detail : json) :
  email_used_of (extract_emails sig_summary sig_detail) = ""
  ↔ extract_emails sig_summary sig_detail = [].
Proof.
  pose proof (extract_emails_shape sig_summary sig_detail) as Hall.
  destruct (extract_emails sig_summary sig_detail) as [|e rest]; [done|].
  split; [|done]. intros Hempty. exfalso.
  apply Forall_cons in Hall as [He%email_shape_nonempty _].
  unfold email_used_of in Hempty.
  destruct (join_head "+" e rest) as [tail Htail]. rewrite Htail in Hempty.
  destruct e; [done|]. by rewrite str_app_cons in Hempty.
Qed.

(** ** A listing that fails *)



(** ** A document record the script cannot read *)

Section Malformed.
Context {Srv : Type} (serve : Srv → Request → Outcome * Srv).


End Malformed.




(** ** The sample of a signature without address *)

Section Sample.
Context {Srv : Type} (serve : Srv → Request → Outcome * Srv).



End Sample.



(** ** Where the addresses come from *)

Lemma occurs_in_refl s : occurs_in s s.
Proof. exists "", "". by rewrite str_app_nil_r. Qed.

Lemma occurs_in_trans s t u : occurs_in s t → occurs_in t u → occurs_in s u.
Proof.
  intros (a & b & ->) (a' & b' & ->). exists (a' +:+ a), (b +:+ b').
  by rewrite !str_app_assoc.
Qed.

Lemma occurs_in_cons c s t : occurs_in s t → occurs_in s (String c t).
Proof. intros (a & b & ->). by exists (String c a), b. Qed.

Lemma lstrip_occurs s : occurs_in (lstrip s) s.
Proof.
  induction s as [|c s IH]; [apply occurs_in_refl|].
  cbn [lstrip]. destruct (py_isspace c); [|apply occurs_in_refl].
  by apply occurs_in_cons.
Qed.

Lemma rstrip_prefix s : ∃ b, s = rstrip s +:+ b.
Proof.
  induction s as [|c s [b IH]]; [by exists ""|].
  cbn [rstrip]. destruct (rstrip s) as [|c' r] eqn:E.
  - destruct (py_isspace c).
    + by exists (String c s).
    + exists s. by rewrite str_app_cons.
  - exists b. rewrite str_app_cons. by rewrite <- IH.
Qed.

Lemma strip_occurs s : occurs_in (strip s) s.
Proof.
  unfold strip. eapply occurs_in_trans; [|apply lstrip_occurs].
  destruct (rstrip_prefix (lstrip s)) as [b Hb]. by exists "", b.
Qed.

Lemma findall_from_occurs pat m : ∀ s k,
  m ∈ findall_from k pat s → occurs_in m s.
Proof.
  induction s as [|c s IH]; intros k.
  - cbn [findall_from]. destruct (match_here pat ""); [|by intros ?%elem_of_nil].
    intros ->%list_elem_of_singleton. apply occurs_in_refl.
  - cbn [findall_from]. destruct k as [|k];
      [|intros H%IH; by apply occurs_in_cons].
    destruct (match_here pat (String c s)) as [[|n]|].
    + intros [->|H%IH]%elem_of_cons; [|by apply occurs_in_cons].
      by exists "", (String c s).
    + intros [->|H%IH]%elem_of_cons; [|by apply occurs_in_cons].
      exists "", (str_drop (S n) (String c s)).
      change ("" +:+ ?x) with x. by rewrite str_take_drop.
    + intros H%IH. by apply occurs_in_cons.
Qed.

Lemma string_values_item items it s :
  it ∈ items → s ∈ string_values it → s ∈ string_values (JArr items).
Proof.
  intros Hit Hs. cbn [string_values]. apply list_elem_of_In, in_flat_map.
  exists it. split; by apply list_elem_of_In.
Qed.

Lemma string_values_field fields k v s :
  (k, v) ∈ fields → s ∈ string_values v → s ∈ string_values (JObj fields).
Proof.
  intros Hkv Hs. cbn [string_values]. apply list_elem_of_In, in_flat_map.
  exists (k, v). split; by apply list_elem_of_In.
Qed.

Lemma assoc_elem key fields v : assoc key fields = Some v → (key, v) ∈ fields.
Proof.
  induction fields as [|[k x] fields IH]; [done|]. cbn [assoc].
  destruct (String.eqb_spec k key) as [->|_].
  - intros [= ->]. by left.
  - intros H. right. by apply IH.
Qed.

Lemma string_values_dict_get d key s :
  s ∈ string_values (dict_get d key) → s ∈ string_values (JObj d).
Proof.
  unfold dict_get, dict_get_or. destruct (assoc key d) as [v|] eqn:E.
  - cbn [default]. intros Hs.
    eapply string_values_field; [by apply assoc_elem|done].
  - by intros ?%elem_of_nil.
Qed.

Lemma email_matches_occur o m :
  m ∈ email_matches o → ∃ s, s ∈ string_values o ∧ occurs_in m s.
Proof.
  revert m. induction o as [|b|n|s|items IH|fields IH] using json_induction;
    intros m; cbn [email_matches]; try by intros ?%elem_of_nil.
  - intros H%findall_from_occurs. exists s. split; [by left|done].
  - intros (it & Hit & Hm)%list_elem_of_In%in_flat_map.
    apply list_elem_of_In in Hit, Hm. rewrite Forall_forall in IH.
    destruct (IH it Hit m Hm) as (s & Hs & Hocc).
    exists s. split; [by eapply string_values_item|done].
  - intros ([k v] & Hkv & Hm)%list_elem_of_In%in_flat_map.
    apply list_elem_of_In in Hkv, Hm. rewrite Forall_forall in IH.
    destruct (IH (k, v) Hkv m Hm) as (s & Hs & Hocc).
    exists s. split; [by eapply string_values_field|done].
Qed.

Lemma accept_occurs e x :
  accept e = Some x → ∃ s, s ∈ string_values e ∧ occurs_in x s.
Proof.
  unfold accept. destruct e as [| | |s| |]; try done.
  destruct (re_match _ _); [|done]. intros [= <-].
  exists s. split; [by left|apply strip_occurs].
Qed.

Lemma item_candidates_values it e s :
  e ∈ item_candidates it → s ∈ string_values e → s ∈ string_values it.
Proof.
  destruct it as [| | | | |d]; try by intros ?%elem_of_nil.
  cbn [item_candidates].
  intros [->|He]%elem_of_cons; [apply string_values_dict_get|].
  destruct (dict_get d "user") as [| | | | |user] eqn:E;
    try by apply elem_of_nil in He.
  apply list_elem_of_singleton in He as ->. intros Hs.
  apply (string_values_dict_get d "user"). rewrite E.
  by apply string_values_dict_get in Hs.
Qed.

Lemma structured_candidates_values d e s :
  e ∈ structured_candidates d → s ∈ string_values e →
  s ∈ string_values (JObj d).
Proof.
  unfold structured_candidates.
  intros (key & _ & He)%list_elem_of_In%in_flat_map Hs.
  destruct (dict_get d key) as [| | | |items|] eqn:E; try done.
  apply in_flat_map in He as (it & Hit & He).
  apply list_elem_of_In in Hit, He.
  apply (string_values_dict_get d key). rewrite E.
  eapply string_values_item; [done|]. by eapply item_candidates_values.
Qed.

Lemma structured_scan_occur j x :
  x ∈ structured_scan j → ∃ s, s ∈ string_values j ∧ occurs_in x s.
Proof.
  destruct j as [| | | | |d]; try by intros ?%elem_of_nil.
  cbn [structured_scan]. intros Hx. apply (proj1 (first_seen_elem _ _)) in Hx.
  apply list_elem_of_omap in Hx as (e & He & Hacc).
  destruct (accept_occurs e x Hacc) as (s & Hs & Hocc).
  exists s. split; [by eapply structured_candidates_values|done].
Qed.

Lemma deep_search_occur j x :
  x ∈ deep_search j → ∃ s, s ∈ string_values j ∧ occurs_in x s.
Proof.
  destruct j as [| | | | |d]; try by intros ?%elem_of_nil.
  unfold deep_search. intros Hx. apply (proj1 (first_seen_elem _ _)) in Hx.
  by apply email_matches_occur.
Qed.

Lemma first_nonempty_elem ls (x : string) :
  x ∈ first_nonempty ls → ∃ l, l ∈ ls ∧ x ∈ l.
Proof.
  induction ls as [|l ls IH]; [by intros ?%elem_of_nil|].
  cbn [first_nonempty]. destruct l as [|y l].
  - intros (l' & Hl' & Hx)%IH. exists l'. split; [by right|done].
  - intros Hx. exists (y :: l). split; [by left|done].
Qed.

(** X25. [extract_emails] invents nothing: every address it returns
    occurs, character for character, in some string value of the
    summary or of the detail. *)
Theorem extract_emails_addresses_occur (sig_summary sig_detail : json)
    (e : string) :
  e ∈ extract_emails sig_summary sig_detail →
  ∃ s, (s ∈ string_values sig_summary ∨ s ∈ string_values sig_detail)
       ∧ occurs_in e s.
Proof.
  rewrite extract_emails_strategies.
  intros (l & Hl & He)%first_nonempty_elem.
  apply elem_of_cons in Hl as [->|Hl].
  { apply structured_scan_occur in He as (s & Hs & Hocc). exists s. tauto. }
  apply elem_of_cons in Hl as [->|Hl].
  { apply structured_scan_occur in He as (s & Hs & Hocc). exists s. tauto. }
  apply elem_of_cons in Hl as [->|Hl].
  { apply deep_search_occur in He as (s & Hs & Hocc). exists s. tauto. }
  apply elem_of_cons in Hl as [->|Hl].
  { apply deep_search_occur in He as (s & Hs & Hocc). exists s. tauto. }
  by apply elem_of_nil in Hl.
Qed.

Lemma extract_emails_addresses_occur_witness :
  ∃ s, (s ∈ string_values JNull ∨ s ∈ string_values same_signer_twice)
       ∧ occurs_in "a@x.com" s.
Proof.
  apply (extract_emails_addresses_occur JNull same_signer_twice "a@x.com").
  vm_compute. by left.
Defined.
